(** * sshpunc: the hop-chain builder, chain manager and forwarding engine

    A shallow embedding of the Go sources of sshpunc (the multi-hop client
    file with [sshCleanup], [newClient], [connectHop] and [clientAlive], and
    [main.go] with [splitSingleHost], [connect], [reconnect],
    [scheduleReconnect] and [forward]), and the properties of the
    specification proved or refuted on it.

    Go values are modelled as follows.
    - [string] is a Go string: a sequence of bytes.
    - [error] is a non-nil Go [error], identified with its message; a Go
      result [err] that may be nil is an [option error].
    - [Client] is the identity of a non-nil [*ssh.Client]; a pointer that
      may be nil is an [option Client].
    - the network (dials, handshakes, probes, closes, copies) is an oracle
      [Network] that answers each interaction from the number of
      interactions made so far, so that every behaviour of the outside
      world is some oracle.
    - effects are a state monad over the package-level variables that also
      writes the trace of observable events, with an outcome for a Go
      panic. *)

From Stdlib Require Import List String Ascii ZArith Lia Bool Arith.
Import ListNotations.
Local Open Scope string_scope.
Local Open Scope list_scope.

(** ** Package [strings] *)

Module strings.

(** [strings.HasPrefix(s, prefix)] *)
Fixpoint HasPrefix (s prefix : string) : bool :=
  match prefix, s with
  | EmptyString, _ => true
  | String _ _, EmptyString => false
  | String p prefix', String c s' => Ascii.eqb c p && HasPrefix s' prefix'
  end.

(** [strings.Contains(s, substr)] *)
Fixpoint Contains (s substr : string) : bool :=
  HasPrefix s substr ||
  match s with
  | EmptyString => false
  | String _ s' => Contains s' substr
  end.

(** [strings.ContainsRune(s, r)] for a rune below [utf8.RuneSelf], where Go
    searches for the byte. *)
Fixpoint ContainsRune (s : string) (r : ascii) : bool :=
  match s with
  | EmptyString => false
  | String c s' => Ascii.eqb c r || ContainsRune s' r
  end.

(** The string without its first [n] bytes, [s[n:]] (all of it dropped
    when [n] exceeds the length). *)
Fixpoint drop (n : nat) (s : string) : string :=
  match n, s with
  | O, _ => s
  | S _, EmptyString => EmptyString
  | S n', String _ s' => drop n' s'
  end.

(** The text before and after the first occurrence of a non-empty [sep] in
    [s], when there is one. *)
Fixpoint cutFirst (s sep : string) : option (string * string) :=
  if HasPrefix s sep then Some (EmptyString, drop (String.length sep) s)
  else match s with
       | EmptyString => None
       | String c s' =>
           match cutFirst s' sep with
           | Some (before, after) => Some (String c before, after)
           | None => None
           end
       end.

(** [strings.SplitN(s, sep, 2)] for a non-empty [sep]: at most two
    substrings, the second one the unsplit remainder. *)
Definition SplitN2 (s sep : string) : list string :=
  match cutFirst s sep with
  | Some (before, after) => [before; after]
  | None => [s]
  end.

(** The loop of [strings.Split]: cut at the next [sep] as long as there is
    one; [fuel] bounds the number of cuts. *)
Fixpoint splitAll (fuel : nat) (s sep : string) : list string :=
  match fuel with
  | O => [s]
  | S fuel' =>
      match cutFirst s sep with
      | None => [s]
      | Some (before, after) => before :: splitAll fuel' after sep
      end
  end.

(** [strings.Split(s, sep)] for a non-empty [sep]: all the substrings
    between the occurrences of [sep].  Every cut removes at least one byte,
    so there are at most as many cuts as bytes. *)
Definition Split (s sep : string) : list string :=
  splitAll (String.length s) s sep.

(** [strings.Join(elems, sep)] *)
Definition Join (elems : list string) (sep : string) : string :=
  String.concat sep elems.

End strings.

(** ** Errors *)

(** A non-nil Go error, identified with the text of [Error()]. *)
Definition error := string.

(** [errors.New(text)] *)
Definition errors_New (text : string) : error := text.

(** ** The parser of [main.go] *)

(** [splitSingleHost(host)]: Go's [(user, addr, err)] with [err == nil] is
    [inl (user, addr)], and two empty strings with [err] is [inr err].
    [parts[0]] and [parts[1]] are in range whenever the guard on ['@'] lets
    the call reach them (lemma [splitSingleHost_parts_in_range]). *)
Definition splitSingleHost (host : string) : (string * string) + error :=
  if negb (strings.ContainsRune host "@"%char) then
    inr (errors_New "host does not contain a username")
  else
    let parts := strings.SplitN2 host "@" in
    let user := nth 0 parts EmptyString in
    let addr := nth 1 parts EmptyString in
    (* cheap check to make sure address contains a port *)
    let addr := if negb (strings.Contains addr ":")
                then (addr ++ ":22")%string
                else addr in
    inl (user, addr).

(** [splitHosts(hosts)] for the list [hostSlice] that [strings.Split(hosts,
    ",")] returns: the loop over the entries, which stops at the first
    entry without a user name. *)
Fixpoint splitHostSlice (hostSlice : list string)
  : (list string * list string) + error :=
  match hostSlice with
  | [] => inl ([], [])
  | host :: rest =>
      match splitSingleHost host with
      | inr err => inr err
      | inl (user, addr) =>
          match splitHostSlice rest with
          | inr err => inr err
          | inl (users, addrs) => inl (user :: users, addr :: addrs)
          end
      end
  end.

(** [splitHosts(hosts)] *)
Definition splitHosts (hosts : string)
  : (list string * list string) + error :=
  (* split into individual strings *)
  let hostSlice := strings.Split hosts "," in
  (* split each host *)
  splitHostSlice hostSlice.

(** ** Values of the [ssh] and [net] packages *)

(** The identity of a non-nil [*ssh.Client]. *)
Definition Client := nat.

(** The identity of the accepted local [net.Conn]. *)
Definition Conn := nat.

(** The fields of [ssh.ClientConfig] that the code reads; [Timeout] is a
    [time.Duration].  The entries of [configs] are the non-nil pointers
    that [main] builds. *)
Record ClientConfig := mkClientConfig { User : string; Timeout : Z }.

(** [type sshCleanup struct { clients []*ssh.Client }], the only
    implementation of [io.Closer] that the program stores. *)
Record sshCleanup := mkCleanup { clients : list Client }.

(** How a call ended: it returned a value, or it panicked. *)
Inductive Called (A : Type) : Type :=
| Returned (a : A)
| Panicked.
Arguments Returned {A} a.
Arguments Panicked {A}.

(** The two directions of the byte pump of [forward]. *)
Inductive Direction := Output | Input.

(** The answers of the outside world.  The first argument of every field
    is the number of interactions that came before. *)
Record Network := mkNetwork {
  net_DialTimeout : nat -> string -> Z -> option error;
  client_Dial : nat -> Client -> string -> option error;
  ssh_NewClientConn : nat -> string -> ClientConfig -> option error;
  client_Close : nat -> Client -> Called (option error);
  conn_SendRequest : nat -> Client -> option error;
  io_Copy : nat -> Direction -> option error
}.

(** ** Observable events *)

(** The lines written with [log.Printf] and [log.Println], by format. *)
Inductive LogLine :=
| LogEstablishing (addr : string)
    (* "Establishing new connection to %s" *)
| LogFailedConnect (addr : string) (err : error)
    (* "Failed to connect to %s: %s" *)
| LogConnectedFinal (addr : string)
    (* "Connected to final hop %s" *)
| LogNotResponding
    (* "Client connection is not responding, closing" *)
| LogFailedClose (err : error)
    (* "Failed to close client connection: %s" *)
| LogSchedulingReconnect
    (* "scheduling reconnect" *)
| LogFailedDialReconnect (remoteAddr : string) (err : error)
    (* "Failed to dial %s, attempting to reconnect: %s" *)
| LogFailedDialFinal (remoteAddr : string) (err : error)
    (* "Failed to dial %s (final): %s" *)
| LogFailedCopy (d : Direction) (err : error).
    (* "Failed to copy output stream: %s", "Failed to copy input stream: %s" *)

(** The functions of the chain manager whose calls the trace records. *)
Inductive Fn := Fconnect | Freconnect.

(** A goroutine started with [go]. *)
Inductive Task :=
| GoReconnect (addrs : list string) (configs : list ClientConfig)
| GoScheduleReconnect (addrs : list string) (configs : list ClientConfig).

Inductive Event :=
| EvLog (line : LogLine)
| EvNetDial (addr : string) (timeout : Z) (err : option error)
    (* net.DialTimeout("tcp", addr, timeout) in connectHop *)
| EvProxyDial (proxy : Client) (addr : string) (err : option error)
    (* proxy.Dial("tcp", addr) in connectHop *)
| EvHandshake (addr : string) (err : option error)
    (* ssh.NewClientConn(conn, addr, config) *)
| EvNewClient (c : Client)
    (* ssh.NewClient(c, channels, reqs) *)
| EvClientClose (c : Client) (res : Called (option error))
    (* client.Close() *)
| EvKeepalive (c : Client) (err : option error)
    (* client.Conn.SendRequest("keepalive@golang.org", true, nil) *)
| EvLock
| EvUnlock
| EvCall (f : Fn)
| EvGo (t : Task)
| EvForwardDial (c : Client) (remoteAddr : string) (err : option error)
    (* client.Dial("tcp", remoteAddr) in forward *)
| EvCopy (d : Direction) (err : option error)
    (* io.Copy *)
| EvConnClose (conn : Conn).
    (* conn.Close() *)

(** ** The state and the monad *)

(** The package-level variables [client], [clientCloser] and [counter],
    the next unused client identity and the number of interactions with
    the network so far. *)
Record State := mkState {
  client : option Client;
  clientCloser : option sshCleanup;
  counter : Z;
  nextClient : Client;
  tick : nat
}.

(** The state at process start: Go's zero values. *)
Definition initialState : State :=
  {| client := None; clientCloser := None; counter := 0;
     nextClient := 0; tick := 0 |}.

(** A computation: from a state to how it ended, the state it left and
    the events it produced, oldest first. *)
Definition M (A : Type) : Type := State -> Called A * State * list Event.

Definition ret {A} (a : A) : M A := fun s => (Returned a, s, []).

Definition bind {A B} (m : M A) (f : A -> M B) : M B := fun s =>
  match m s with
  | (Returned a, s1, t1) => let '(r, s2, t2) := f a s1 in (r, s2, t1 ++ t2)
  | (Panicked, s1, t1) => (Panicked, s1, t1)
  end.

Notation "x <- m ;; k" := (bind m (fun x => k))
  (at level 61, m at next level, right associativity).
Notation "' pat <- m ;; k" := (bind m (fun x => match x with pat => k end))
  (at level 61, pat pattern, m at next level, right associativity).
Notation "m ;; k" := (bind m (fun _ => k))
  (at level 61, right associativity).

(** [panic]: a nil dereference or an index out of range. *)
Definition panic {A} : M A := fun s => (Panicked, s, []).

(** [defer cleanup; body]: the deferred call runs when the body returns
    and when it panics, and a panic of the body goes on after it. *)
Definition defer {A} (cleanup : M unit) (body : M A) : M A := fun s =>
  let '(r, s1, t1) := body s in
  let '(r', s2, t2) := cleanup s1 in
  (match r' with Returned _ => r | Panicked => Panicked end, s2, t1 ++ t2).

Definition emit (ev : Event) : M unit := fun s => (Returned tt, s, [ev]).

Definition log (line : LogLine) : M unit := emit (EvLog line).

Definition getClient : M (option Client) :=
  fun s => (Returned (client s), s, []).

Definition getClientCloser : M (option sshCleanup) :=
  fun s => (Returned (clientCloser s), s, []).

Definition setClient (v : option Client) : M unit := fun s =>
  (Returned tt,
   {| client := v; clientCloser := clientCloser s; counter := counter s;
      nextClient := nextClient s; tick := tick s |}, []).

Definition setClientCloser (v : option sshCleanup) : M unit := fun s =>
  (Returned tt,
   {| client := client s; clientCloser := v; counter := counter s;
      nextClient := nextClient s; tick := tick s |}, []).

(** One interaction with the network: the oracle answers at the current
    tick, the event [ev answer] is recorded and the tick advances. *)
Definition interact {A} (ask : nat -> A) (ev : A -> Event) : M A := fun s =>
  let a := ask (tick s) in
  (Returned a,
   {| client := client s; clientCloser := clientCloser s; counter := counter s;
      nextClient := nextClient s; tick := S (tick s) |}, [ev a]).

(** [ssh.NewClient]: a client that did not exist before. *)
Definition ssh_NewClient : M Client := fun s =>
  let c := nextClient s in
  (Returned c,
   {| client := client s; clientCloser := clientCloser s; counter := counter s;
      nextClient := S c; tick := tick s |}, [EvNewClient c]).

(** [atomic.AddUint64(&counter, delta)]: the new value, modulo 2^64. *)
Definition atomic_AddUint64 (delta : Z) : M Z := fun s =>
  let v := ((counter s + delta) mod 2 ^ 64)%Z in
  (Returned v,
   {| client := client s; clientCloser := clientCloser s; counter := v;
      nextClient := nextClient s; tick := tick s |}, []).

(** [xs[i]], which panics out of range. *)
Definition index {A} (xs : list A) (i : nat) : M A :=
  match nth_error xs i with
  | Some x => ret x
  | None => panic
  end.

(** [go f(...)]: the goroutine is started and the caller goes on without
    waiting for it. *)
Definition go (t : Task) : M unit := emit (EvGo t).

(** ** The program *)

Section Program.

Variable net : Network.

(** The deferred closures of [sshCleanup.Close], run from the top of the
    defer stack.  Each one calls [client.Close()] and keeps the result in
    [err] when [err] is still nil; a closure that panics leaves [err] as it
    was, and the deferred calls below it still run. *)
Fixpoint runDeferred (stack : list Client) (err : option error)
  : M (option error) :=
  match stack with
  | [] => ret err
  | client :: below =>
      res <- interact (fun t => client_Close net t client)
                      (EvClientClose client) ;;
      let err :=
        match res with
        | Returned e => match err with None => e | Some _ => err end
        | Panicked => err
        end in
      runDeferred below err
  end.

(** [func (c sshCleanup) Close() (err error)]: the loop defers one closure
    per client, in the order of [c.clients], so the last client is on top
    of the stack; the closure deferred first recovers from any panic, and
    the call returns the named result [err]. *)
Definition Close (c : sshCleanup) : M (option error) :=
  runDeferred (rev (clients c)) None.

(** [connectHop(proxy, addr, config)].  Go's [(client, nil)], where
    [client] comes from [ssh.NewClient] and is never nil, is [inl client];
    [(nil, err)] is [inr err]. *)
Definition connectHop (proxy : option Client) (addr : string)
  (config : ClientConfig) : M (Client + error) :=
  (* dial the network connection *)
  err <- match proxy with
         | None =>
             interact (fun t => net_DialTimeout net t addr (Timeout config))
                      (EvNetDial addr (Timeout config))
         | Some p =>
             interact (fun t => client_Dial net t p addr) (EvProxyDial p addr)
         end ;;
  (* bail out if there was an error *)
  match err with
  | Some err => ret (inr err)
  | None =>
      (* make the client connection *)
      err <- interact (fun t => ssh_NewClientConn net t addr config)
                      (EvHandshake addr) ;;
      match err with
      | Some err => ret (inr err)
      | None =>
          (* and finally the new ssh client *)
          c <- ssh_NewClient ;; ret (inl c)
      end
  end.

(** The loop [for i, addr := range addrs] of [newClient], from index [i]
    with the addresses [rest] still to visit; [client] and [c] are the
    variables of [newClient].  It ends with the triple that [newClient]
    returns from inside the loop, or with [client] and [c] after the last
    hop. *)
Fixpoint hopLoop (configs : list ClientConfig) (i : nat) (rest : list string)
  (client : option Client) (c : sshCleanup)
  : M ((option Client * option sshCleanup * option error)
       + (option Client * sshCleanup)) :=
  match rest with
  | [] => ret (inr (client, c))
  | addr :: rest' =>
      config <- index configs i ;;
      log (LogEstablishing addr) ;;
      (* connect to the next hop in line *)
      r <- connectHop client addr config ;;
      match r with
      | inr err =>
          log (LogFailedConnect addr err) ;;
          Close c ;;
          ret (inl (None, None, Some err))
      | inl cl =>
          (* keep the old client around *)
          hopLoop configs (S i) rest' (Some cl)
                  {| clients := clients c ++ [cl] |}
      end
  end.

(** [newClient(addrs, configs)] *)
Definition newClient (addrs : list string) (configs : list ClientConfig)
  : M (option Client * option sshCleanup * option error) :=
  (* ensure same length! *)
  if negb (List.length addrs =? List.length configs)%nat then
    ret (None, None, Some (errors_New "newClient: len(config) != len(addrs)"))
  else
    (* prepare a cleanup function *)
    let c := {| clients := [] |} in
    if (List.length addrs =? 0)%nat then
      ret (None, None, Some (errors_New "no addresses provided"))
    else
      (* hop one by one *)
      r <- hopLoop configs 0 addrs None c ;;
      match r with
      | inl returned => ret returned
      | inr (client, c) =>
          log (LogConnectedFinal
                 (nth (List.length addrs - 1) addrs EmptyString)) ;;
          ret (client, Some c, None)
      end.

(** [clientAlive(client, cleanup)]; [cleanup.Close()] on a nil interface
    panics. *)
Definition clientAlive (client : option Client) (cleanup : option sshCleanup)
  : M bool :=
  match client with
  | None => ret false (* no client => not alive *)
  | Some cl =>
      (* check if actually alive *)
      err <- interact (fun t => conn_SendRequest net t cl) (EvKeepalive cl) ;;
      match err with
      | None => ret true
      | Some _ =>
          log LogNotResponding ;;
          err <- match cleanup with
                 | Some c => Close c
                 | None => panic
                 end ;;
          match err with
          | Some err => log (LogFailedClose err)
          | None => ret tt
          end ;;
          ret false
      end
  end.

(** [connect(addrs, configs)].  A call runs from [Lock] to [Unlock] without
    another goroutine in between. *)
Definition connect (addrs : list string) (configs : list ClientConfig)
  : M (option Client * option error) :=
  emit (EvCall Fconnect) ;;
  emit EvLock ;;
  defer (emit EvUnlock)
    (cl <- getClient ;;
     closer <- getClientCloser ;;
     (* if the client is still alive, return it! *)
     alive <- clientAlive cl closer ;;
     if alive then
       cl <- getClient ;; ret (cl, None)
     else
       (* setup a new client, and make sure to return nil on error! *)
       '(nc, ncloser, err) <- newClient addrs configs ;;
       setClient nc ;;
       setClientCloser ncloser ;;
       match err with
       | Some _ => setClient None
       | None => ret tt
       end ;;
       cl <- getClient ;; ret (cl, err)).

(** [reconnect(addrs, configs)] *)
Definition reconnect (addrs : list string) (configs : list ClientConfig)
  : M (option Client * option error) :=
  emit (EvCall Freconnect) ;;
  (* make a new connection *)
  '(nClient, nClientCloser, err) <- newClient addrs configs ;;
  match err with
  | Some err => ret (None, Some err)
  | None =>
      (* lock the client mutex *)
      emit EvLock ;;
      defer (emit EvUnlock)
        ((* store it! *)
         setClient nClient ;;
         setClientCloser nClientCloser ;;
         ret (nClient, None))
  end.

Definition counterCycle : Z := 1000.

(** [scheduleReconnect(addrs, configs)] *)
Definition scheduleReconnect (addrs : list string)
  (configs : list ClientConfig) : M unit :=
  n <- atomic_AddUint64 1 ;;
  if negb (n mod counterCycle =? 0)%Z then ret tt
  else
    log LogSchedulingReconnect ;;
    go (GoReconnect addrs configs).

(** What a goroutine does once it runs: the call after [go], whose
    results are dropped. *)
Definition runTask (t : Task) : M unit :=
  match t with
  | GoReconnect addrs configs => reconnect addrs configs ;; ret tt
  | GoScheduleReconnect addrs configs => scheduleReconnect addrs configs
  end.

(** [client.Dial("tcp", remoteAddr)] in [forward]; a nil [client] is a nil
    dereference. *)
Definition dialRemote (client : option Client) (remoteAddr : string)
  : M (option error) :=
  match client with
  | None => panic
  | Some cl => interact (fun t => client_Dial net t cl remoteAddr)
                        (EvForwardDial cl remoteAddr)
  end.

(** One of the two copying goroutines of [forward]. *)
Definition copyStream (d : Direction) : M unit :=
  err <- interact (fun t => io_Copy net t d) (EvCopy d) ;;
  match err with
  | Some err => log (LogFailedCopy d err)
  | None => ret tt
  end.

(** The rest of [forward] once [dest] is open: the scheduler goroutine is
    started, then the two copying goroutines run and [wg.Wait()] returns
    when both are done.  The two copies run concurrently in the source;
    here the one started first runs first. *)
Definition pump (addrs : list string) (configs : list ClientConfig) : M unit :=
  (* reconnect every couple connections *)
  go (GoScheduleReconnect addrs configs) ;;
  copyStream Output ;;
  copyStream Input.

(** [forward(conn, remoteAddr, addrs, configs)] *)
Definition forward (conn : Conn) (remoteAddr : string) (addrs : list string)
  (configs : list ClientConfig) : M unit :=
  defer (emit (EvConnClose conn))
    ((* get or make a new client *)
     '(client, err) <- connect addrs configs ;;
     match err with
     | Some _ => ret tt
     | None =>
         (* make a new connection to the remote address *)
         err <- dialRemote client remoteAddr ;;
         match err with
         | None => pump addrs configs
         | Some err =>
             log (LogFailedDialReconnect remoteAddr err) ;;
             (* get or make a new client *)
             '(client, err) <- reconnect addrs configs ;;
             match err with
             | Some _ => ret tt
             | None =>
                 (* make a new connection to the remote address *)
                 err <- dialRemote client remoteAddr ;;
                 match err with
                 | Some err => log (LogFailedDialFinal remoteAddr err)
                 | None => pump addrs configs
                 end
             end
         end
     end).

End Program.

(** ** Reading a trace *)

(** The events of a trace that [f] selects, in order. *)
Fixpoint pick {A} (f : Event -> option A) (t : list Event) : list A :=
  match t with
  | [] => []
  | ev :: t' =>
      match f ev with
      | Some a => a :: pick f t'
      | None => pick f t'
      end
  end.

(** The addresses that [connectHop] dialled. *)
Definition dialled : list Event -> list string :=
  pick (fun ev => match ev with
                  | EvNetDial addr _ _ => Some addr
                  | EvProxyDial _ addr _ => Some addr
                  | _ => None
                  end).

(** The errors that the dials and handshakes of [connectHop] returned. *)
Definition hopErrors : list Event -> list error :=
  pick (fun ev => match ev with
                  | EvNetDial _ _ (Some err) => Some err
                  | EvProxyDial _ _ (Some err) => Some err
                  | EvHandshake _ (Some err) => Some err
                  | _ => None
                  end).

(** The clients that [ssh.NewClient] made. *)
Definition established : list Event -> list Client :=
  pick (fun ev => match ev with EvNewClient c => Some c | _ => None end).

(** The clients on which [Close] was called. *)
Definition closed : list Event -> list Client :=
  pick (fun ev => match ev with EvClientClose c _ => Some c | _ => None end).

(** The non-nil errors that calls of [client.Close()] returned. *)
Definition closeErrors : list Event -> list error :=
  pick (fun ev => match ev with
                  | EvClientClose _ (Returned (Some err)) => Some err
                  | _ => None
                  end).

(** The clients that were probed with a keepalive request. *)
Definition probed : list Event -> list Client :=
  pick (fun ev => match ev with EvKeepalive c _ => Some c | _ => None end).

(** The log. *)
Definition logged : list Event -> list LogLine :=
  pick (fun ev => match ev with EvLog line => Some line | _ => None end).

(** The goroutines that were started. *)
Definition started : list Event -> list Task :=
  pick (fun ev => match ev with EvGo t => Some t | _ => None end).

(** The rebuilds that were started in the background. *)
Definition rebuildsStarted : list Event -> list Task :=
  pick (fun ev => match ev with
                  | EvGo (GoReconnect a c) => Some (GoReconnect a c)
                  | _ => None
                  end).

(** The calls of a function of the chain manager. *)
Definition calls (f : Fn) : list Event -> list unit :=
  pick (fun ev => match ev, f with
                  | EvCall Fconnect, Fconnect => Some tt
                  | EvCall Freconnect, Freconnect => Some tt
                  | _, _ => None
                  end).

(** The channel opens of [forward]: client, remote address and result. *)
Definition remoteDials : list Event -> list (Client * string * option error) :=
  pick (fun ev => match ev with
                  | EvForwardDial c a err => Some (c, a, err)
                  | _ => None
                  end).

(** The copies of the byte pump. *)
Definition copies : list Event -> list Direction :=
  pick (fun ev => match ev with EvCopy d _ => Some d | _ => None end).

(** The local connections that were closed. *)
Definition connCloses : list Event -> list Conn :=
  pick (fun ev => match ev with EvConnClose c => Some c | _ => None end).

(** The errors that a log line shows. *)
Definition lineErrors (line : LogLine) : list error :=
  match line with
  | LogFailedConnect _ err => [err]
  | LogFailedClose err => [err]
  | LogFailedDialReconnect _ err => [err]
  | LogFailedDialFinal _ err => [err]
  | LogFailedCopy _ err => [err]
  | _ => []
  end.

(** The errors that the log of a trace shows. *)
Definition loggedErrors (t : list Event) : list error :=
  flat_map lineErrors (logged t).

(** The events that a build of the chain can produce. *)
Definition buildEvent (ev : Event) : bool :=
  match ev with
  | EvLog (LogEstablishing _) | EvLog (LogFailedConnect _ _)
  | EvLog (LogConnectedFinal _) => true
  | EvNetDial _ _ _ | EvProxyDial _ _ _ | EvHandshake _ _ | EvNewClient _
  | EvClientClose _ _ => true
  | _ => false
  end.

(** [n] sequential calls of [m], each one after the one before returned. *)
Fixpoint repeatM (n : nat) (m : M unit) : M unit :=
  match n with
  | O => ret tt
  | S n' => repeatM n' m ;; m
  end.

(** ** Networks for the examples *)

(** Every dial, handshake, probe, close and copy succeeds. *)
Definition quietNet : Network :=
  {| net_DialTimeout := fun _ _ _ => None;
     client_Dial := fun _ _ _ => None;
     ssh_NewClientConn := fun _ _ _ => None;
     client_Close := fun _ _ => Returned None;
     conn_SendRequest := fun _ _ => None;
     io_Copy := fun _ _ => None |}.

(** The handshake with [bad] fails, and closing a client fails too. *)
Definition handshakeFails (bad : string) : Network :=
  {| net_DialTimeout := fun _ _ _ => None;
     client_Dial := fun _ _ _ => None;
     ssh_NewClientConn := fun _ addr _ =>
       if String.eqb addr bad then Some "ssh: handshake failed: EOF" else None;
     client_Close := fun _ _ =>
       Returned (Some "use of closed network connection");
     conn_SendRequest := fun _ _ => None;
     io_Copy := fun _ _ => None |}.

(** The chain can be built and probed, and no channel to a remote address
    can be opened through it. *)
Definition remoteUnreachable : Network :=
  {| net_DialTimeout := fun _ _ _ => None;
     client_Dial := fun _ _ addr =>
       if String.eqb addr "internal.lan:80"
       then Some "ssh: rejected: connect failed (Connection refused)"
       else None;
     ssh_NewClientConn := fun _ _ _ => None;
     client_Close := fun _ _ => Returned None;
     conn_SendRequest := fun _ _ => None;
     io_Copy := fun _ _ => None |}.

(** Nothing can be reached: the first dial fails. *)
Definition networkDown : Network :=
  {| net_DialTimeout := fun _ _ _ => Some "dial tcp: i/o timeout";
     client_Dial := fun _ _ _ => Some "ssh: rejected";
     ssh_NewClientConn := fun _ _ _ => None;
     client_Close := fun _ _ => Returned None;
     conn_SendRequest := fun _ _ => Some "EOF";
     io_Copy := fun _ _ => None |}.

Definition cfg (user : string) : ClientConfig :=
  {| User := user; Timeout := 0 |}.

(** The package-level variables are the same in both states. *)
Definition sameVars (s s' : State) : Prop :=
  client s' = client s /\ clientCloser s' = clientCloser s /\
  counter s' = counter s.

(** The event is a call of [client.Close()]. *)
Definition isClose (ev : Event) : bool :=
  match ev with
  | EvClientClose _ _ => true
  | _ => false
  end.

(** The events that [connect] and [reconnect] can produce: everything but
    the events of a forwarding session and the start of a goroutine. *)
Definition managerEvent (ev : Event) : bool :=
  match ev with
  | EvForwardDial _ _ _ | EvCopy _ _ | EvConnClose _ | EvGo _ => false
  | _ => true
  end.

(** The event is a dial or a handshake of [connectHop] for the address
    [addr] that returned the error [e]. *)
Definition hopFailure (addr : string) (e : error) (fe : Event) : Prop :=
  match fe with
  | EvNetDial a _ (Some e') | EvProxyDial _ a (Some e')
  | EvHandshake a (Some e') => a = addr /\ e' = e
  | _ => False
  end.

(** How the trace of a build that failed at a hop looks: [tb], the trace
    up to the failing dial or handshake [fe], the log line with the address
    of the hop, and [tc], the closes.  [before] are the clients that were in
    the closer when the loop started, [rest] the addresses it had to visit,
    and [k] counts the hops that it established. *)
Definition failedAt (before : list Client) (rest : list string) (k : nat)
  (e : error) (t : list Event) : Prop :=
  exists tb fe tc,
    t = tb ++ [fe; EvLog (LogFailedConnect (nth k rest EmptyString) e)] ++ tc /\
    hopFailure (nth k rest EmptyString) e fe /\
    dialled (tb ++ [fe]) = firstn (S k) rest /\
    List.length (established tb) = k /\
    closed tb = [] /\ hopErrors tb = [] /\
    forallb isClose tc = true /\
    closed tc = rev (before ++ established tb).

(** The configs that [main] sets up: one [ssh.ClientConfig] per user, in
    order, with [User] set and [Timeout] left at its zero value.  [users] and
    [addrs] come from [splitHosts] and have the same length (lemma
    [splitHosts_accepted]), so the loop fills every entry of [configs]. *)
Definition mainConfigs (users : list string) : list ClientConfig :=
  map (fun user => {| User := user; Timeout := 0 |}) users.

(** The start of [main] for a key file that can be read: the addresses and
    configs that every later call of [connect] and [forward] gets, or the
    error with which [log.Fatalf] ends the process. *)
Definition mainHops (sshHost : string)
  : (list string * list ClientConfig) + error :=
  match splitHosts sshHost with
  | inr err => inr err
  | inl (users, addrs) => inl (addrs, mainConfigs users)
  end.

(** The dials of [connectHop]: the proxy, nil for a direct dial, and the
    address. *)
Definition hopDials : list Event -> list (option Client * string) :=
  pick (fun ev => match ev with
                  | EvNetDial addr _ _ => Some (None, addr)
                  | EvProxyDial p addr _ => Some (Some p, addr)
                  | _ => None
                  end).

(** The addresses with which a handshake was made. *)
Definition handshakes : list Event -> list string :=
  pick (fun ev => match ev with
                  | EvHandshake addr _ => Some addr
                  | _ => None
                  end).

(** The timeouts of the direct dials. *)
Definition dialTimeouts : list Event -> list Z :=
  pick (fun ev => match ev with EvNetDial _ z _ => Some z | _ => None end).

(** The operations on [clientMutex]: [true] for [Lock], [false] for
    [Unlock]. *)
Definition locks : list Event -> list bool :=
  pick (fun ev => match ev with
                  | EvLock => Some true
                  | EvUnlock => Some false
                  | _ => None
                  end).

(** The stored handle is whole: no client and no closer, or a client that
    is the last hop of the closer. *)
Definition coherent (s : State) : Prop :=
  match client s, clientCloser s with
  | None, None => True
  | Some c, Some closer => clients closer <> [] /\ last (clients closer) 0 = c
  | _, _ => False
  end.

(** The goroutines of the program: [go connect(...)] and [go forward(...)]
    of [main], and the ones that [forward] and [scheduleReconnect] start. *)
Inductive Goroutine :=
| GConnect (addrs : list string) (configs : list ClientConfig)
| GForward (conn : Conn) (remoteAddr : string) (addrs : list string)
    (configs : list ClientConfig)
| GTask (t : Task).

(** What a goroutine does once it runs. *)
Definition runGoroutine (net : Network) (g : Goroutine) : M unit :=
  match g with
  | GConnect addrs configs => connect net addrs configs ;; ret tt
  | GForward conn remoteAddr addrs configs =>
      forward net conn remoteAddr addrs configs
  | GTask t => runTask net t
  end.

(** The goroutines of a list, each one run to its end before the next
    starts. *)
Fixpoint runAll (net : Network) (gs : list Goroutine) : M unit :=
  match gs with
  | [] => ret tt
  | g :: rest => runGoroutine net g ;; runAll net rest
  end.

(** The local connections of the sessions in a list of goroutines. *)
Definition sessionConns (gs : list Goroutine) : list Conn :=
  flat_map (fun g => match g with
                     | GForward conn _ _ _ => [conn]
                     | _ => []
                     end) gs.

(** [k] times [Lock] and then [Unlock]. *)
Definition lockPairs (k : nat) : list bool :=
  List.concat (repeat [true; false] k).

(** The text after the last [':'] of an address, when it has a [':']. *)
Fixpoint afterLastColon (addr : string) : option string :=
  match addr with
  | EmptyString => None
  | String c rest =>
      match afterLastColon rest with
      | Some port => Some port
      | None => if Ascii.eqb c ":" then Some rest else None
      end
  end.

(** The byte is a decimal digit. *)
Definition isDigit (c : ascii) : bool :=
  let n := nat_of_ascii c in (48 <=? n)%nat && (n <=? 57)%nat.

Fixpoint allDigits (s : string) : bool :=
  match s with
  | EmptyString => true
  | String c rest => isDigit c && allDigits rest
  end.

(** The address is a [host:port] with a port: the text after its last
    [':'] is a decimal number.  This is the condition of the specification,
    to compare with the check of [splitSingleHost], which looks for a [':']
    only. *)
Definition hasPort (addr : string) : bool :=
  match afterLastColon addr with
  | Some port => negb (String.eqb port EmptyString) && allDigits port
  | None => false
  end.

(** * Properties *)

(** ** The parser *)

Example splitSingleHost_no_port :
  splitSingleHost "username@server.com" = inl ("username", "server.com:22").
Proof. reflexivity. Qed.

Example splitSingleHost_with_port :
  splitSingleHost "root@10.0.0.1:2222" = inl ("root", "10.0.0.1:2222").
Proof. reflexivity. Qed.

Example splitSingleHost_no_user :
  splitSingleHost "server.com:22" = inr "host does not contain a username".
Proof. reflexivity. Qed.

Example splitSingleHost_second_at :
  splitSingleHost "a@b@c" = inl ("a", "b@c:22").
Proof. reflexivity. Qed.

(** The check for a port is the check for a [':'] in the address part: an
    address that has one without a port, such as a bracketed IPv6 literal,
    is returned as it is. *)
Example splitSingleHost_colon_without_port :
  splitSingleHost "root@[::1]" = inl ("root", "[::1]").
Proof. reflexivity. Qed.

Lemma HasPrefix_single (s : string) (r : ascii) :
  strings.HasPrefix s (String r EmptyString) =
  match s with
  | EmptyString => false
  | String c _ => Ascii.eqb c r
  end.
Proof.
  destruct s as [|c s']; simpl; [reflexivity|].
  destruct s'; simpl; apply andb_true_r.
Qed.

(** Looking for a one-byte substring is looking for the byte. *)
Lemma Contains_single (s : string) (r : ascii) :
  strings.Contains s (String r EmptyString) = strings.ContainsRune s r.
Proof.
  induction s as [|c s' IH].
  - reflexivity.
  - change (strings.Contains (String c s') (String r EmptyString))
      with (strings.HasPrefix (String c s') (String r EmptyString)
            || strings.Contains s' (String r EmptyString)).
    rewrite HasPrefix_single, IH. reflexivity.
Qed.

(** The cut at the first ['@'] of a string splits it there. *)
Lemma cutFirst_at (host : string) :
  strings.ContainsRune host "@"%char = true ->
  exists user rest,
    strings.cutFirst host "@" = Some (user, rest) /\
    host = (user ++ "@" ++ rest)%string /\
    strings.ContainsRune user "@"%char = false.
Proof.
  induction host as [|c host' IH]; intros H.
  - discriminate.
  - change (strings.cutFirst (String c host') "@")
      with (if strings.HasPrefix (String c host') "@"
            then Some (EmptyString, strings.drop 1 (String c host'))
            else match strings.cutFirst host' "@" with
                 | Some (before, after) => Some (String c before, after)
                 | None => None
                 end).
    rewrite HasPrefix_single.
    simpl in H. destruct (Ascii.eqb c "@") eqn:Ec.
    + apply Ascii.eqb_eq in Ec. subst c.
      exists EmptyString, host'. repeat split.
    + simpl in H. destruct (IH H) as (user & rest & Hcut & Hhost & Huser).
      rewrite Hcut. exists (String c user), rest. repeat split.
      * simpl. now rewrite Hhost.
      * simpl. now rewrite Ec, Huser.
Qed.

(** [parts[0]] and [parts[1]] exist when [splitSingleHost] reads them. *)
Lemma splitSingleHost_parts_in_range (host : string) :
  strings.ContainsRune host "@"%char = true ->
  List.length (strings.SplitN2 host "@") = 2.
Proof.
  intros H. destruct (cutFirst_at host H) as (user & rest & Hcut & _).
  unfold strings.SplitN2. now rewrite Hcut.
Qed.

Lemma append_colon_has_colon (s t : string) :
  strings.ContainsRune (s ++ String ":" t) ":"%char = true.
Proof.
  induction s as [|c s' IH]; simpl.
  - reflexivity.
  - rewrite IH. apply orb_true_r.
Qed.

(** What [splitSingleHost] returns for an entry that it accepts. *)
Lemma splitSingleHost_cut (host user addr : string) :
  splitSingleHost host = inl (user, addr) ->
  exists rest,
    host = (user ++ "@" ++ rest)%string /\
    strings.ContainsRune user "@"%char = false /\
    (if strings.ContainsRune rest ":"%char
     then addr = rest
     else addr = (rest ++ ":22")%string) /\
    strings.ContainsRune addr ":"%char = true.
Proof.
  unfold splitSingleHost.
  destruct (strings.ContainsRune host "@"%char) eqn:Hat; simpl; [|discriminate].
  destruct (cutFirst_at host Hat) as (u & rest & Hcut & Hhost & Hu).
  unfold strings.SplitN2. rewrite Hcut. simpl.
  rewrite (Contains_single rest ":"%char).
  intros H. exists rest.
  destruct (strings.ContainsRune rest ":"%char) eqn:Hc; simpl in H;
    inversion H; subst user addr; repeat split; auto.
  apply append_colon_has_colon.
Qed.

(** C9 (amended). Every host entry that [splitSingleHost] parses is
    [user ++ "@" ++ rest], cut at its first ['@']; when [rest], the address
    part, has no [':'], the returned address is [rest ++ ":22"], and
    otherwise it is [rest] unchanged, also when [rest] has a [':'] and no
    port.  Either way the returned address has a [':']. *)
Theorem splitSingleHost_default_port (host user addr : string) :
  splitSingleHost host = inl (user, addr) ->
  exists rest,
    host = (user ++ "@" ++ rest)%string /\
    strings.ContainsRune user "@"%char = false /\
    (if strings.ContainsRune rest ":"%char
     then addr = rest
     else addr = (rest ++ ":22")%string) /\
    strings.ContainsRune addr ":"%char = true.
Proof. exact (splitSingleHost_cut host user addr). Qed.

(** The theorem at ["username@server.com"]. *)
Lemma splitSingleHost_default_port_witness :
  splitSingleHost "username@server.com" = inl ("username", "server.com:22") /\
  exists rest,
    "username@server.com" = ("username" ++ "@" ++ rest)%string /\
    strings.ContainsRune "username" "@"%char = false /\
    (if strings.ContainsRune rest ":"%char
     then "server.com:22" = rest
     else "server.com:22" = (rest ++ ":22")%string) /\
    strings.ContainsRune "server.com:22" ":"%char = true.
Proof.
  split.
  - reflexivity.
  - apply (splitSingleHost_default_port
             "username@server.com" "username" "server.com:22").
    reflexivity.
Defined.

(** C9, as stated, fails.  The address parts ["[::1]"] and ["h:"] are
    missing a port, and [splitSingleHost] returns them as they are, without
    [":22"]: its check finds a [':'] in them. *)
Lemma splitSingleHost_port_not_defaulted :
  (hasPort "[::1]" = false /\
   splitSingleHost "root@[::1]" = inl ("root", "[::1]") /\
   splitSingleHost "root@[::1]" <> inl ("root", "[::1]:22")) /\
  (hasPort "h:" = false /\
   splitSingleHost "u@h:" = inl ("u", "h:") /\
   splitSingleHost "u@h:" <> inl ("u", "h::22")) /\
  hasPort "server.com:22" = true /\ hasPort "server.com" = false.
Proof.
  repeat split; try reflexivity; discriminate.
Qed.

(** A host entry without ['@'] is refused. *)
Lemma splitSingleHost_no_user_error (host : string) :
  strings.ContainsRune host "@"%char = false ->
  splitSingleHost host = inr "host does not contain a username".
Proof. intros H. unfold splitSingleHost. now rewrite H. Qed.

(** The lists that [splitHosts] returns have one user and one address per
    host entry, and every address has a [':']: [main] calls [newClient]
    with as many configs as addresses. *)
Lemma splitHostSlice_lengths (hostSlice users addrs : list string) :
  splitHostSlice hostSlice = inl (users, addrs) ->
  List.length users = List.length hostSlice /\
  List.length addrs = List.length hostSlice /\
  Forall (fun addr => strings.ContainsRune addr ":"%char = true) addrs.
Proof.
  revert users addrs.
  induction hostSlice as [|host rest IH]; intros users addrs H; simpl in H.
  - inversion H. repeat split. constructor.
  - destruct (splitSingleHost host) as [[user addr]|err] eqn:Ehost;
      [|discriminate].
    destruct (splitHostSlice rest) as [[users' addrs']|err] eqn:Erest;
      [|discriminate].
    inversion H; subst users addrs.
    destruct (IH users' addrs' eq_refl) as (Hu & Ha & Hall).
    destruct (splitSingleHost_cut host user addr Ehost) as (_ & _ & _ & _ & Hc).
    simpl. repeat split; auto.
Qed.

(** ** Running computations *)

Lemma bind_returned {A B} (m : M A) (f : A -> M B) s a s1 t1 r s2 t2 :
  m s = (Returned a, s1, t1) ->
  f a s1 = (r, s2, t2) ->
  bind m f s = (r, s2, t1 ++ t2).
Proof. intros Hm Hf. unfold bind. now rewrite Hm, Hf. Qed.

Lemma bind_panicked {A B} (m : M A) (f : A -> M B) s s1 t1 :
  m s = (Panicked, s1, t1) ->
  bind m f s = (Panicked, s1, t1).
Proof. intros Hm. unfold bind. now rewrite Hm. Qed.

Lemma defer_run {A} (cleanup : M unit) (body : M A) s r s1 t1 s2 t2 :
  body s = (r, s1, t1) ->
  cleanup s1 = (Returned tt, s2, t2) ->
  defer cleanup body s = (r, s2, t1 ++ t2).
Proof. intros Hb Hc. unfold defer. now rewrite Hb, Hc. Qed.

Lemma sameVars_refl s : sameVars s s.
Proof. repeat split. Qed.

Lemma sameVars_trans s1 s2 s3 :
  sameVars s1 s2 -> sameVars s2 s3 -> sameVars s1 s3.
Proof.
  unfold sameVars. intros (A1 & A2 & A3) (B1 & B2 & B3).
  repeat split; congruence.
Qed.

#[local] Hint Resolve sameVars_refl : core.

(** ** Reading traces *)

Lemma pick_app {A} (f : Event -> option A) (t1 t2 : list Event) :
  pick f (t1 ++ t2) = pick f t1 ++ pick f t2.
Proof.
  induction t1 as [|ev t1 IH]; simpl; [reflexivity|].
  destruct (f ev); simpl; now rewrite IH.
Qed.

Lemma pick_none {A} (f : Event -> option A) (P : Event -> bool) t :
  forallb P t = true ->
  (forall ev, P ev = true -> f ev = None) ->
  pick f t = [].
Proof.
  intros Ht Hf. induction t as [|ev t IH]; simpl; [reflexivity|].
  simpl in Ht. apply andb_true_iff in Ht as [Hev Ht].
  rewrite (Hf ev Hev). auto.
Qed.

Lemma forallb_weaken (P Q : Event -> bool) t :
  (forall ev, P ev = true -> Q ev = true) ->
  forallb P t = true -> forallb Q t = true.
Proof.
  intros HPQ. rewrite !forallb_forall. auto.
Qed.

Lemma isClose_buildEvent ev : isClose ev = true -> buildEvent ev = true.
Proof. destruct ev; simpl; congruence. Qed.

Lemma buildEvent_managerEvent ev :
  buildEvent ev = true -> managerEvent ev = true.
Proof. destruct ev as [[]| | | | | | | | | | | | |]; simpl; congruence. Qed.

(** What a trace of closes shows to the other readers. *)
Lemma closes_only t :
  forallb isClose t = true ->
  dialled t = [] /\ hopErrors t = [] /\ established t = [] /\ logged t = [].
Proof.
  intros H. repeat split; apply (pick_none _ isClose); auto;
    intros [] E; simpl in E; congruence.
Qed.

(** What a trace of a build shows to the readers of the manager and of a
    session. *)
Lemma build_only t :
  forallb buildEvent t = true ->
  probed t = [] /\ calls Fconnect t = [] /\ calls Freconnect t = [] /\
  forallb managerEvent t = true.
Proof.
  intros H. repeat split;
    try (apply (pick_none _ buildEvent); auto;
         intros [[]| | | | | | | | | | | | |] E; simpl in E; congruence).
  revert H. apply forallb_weaken, buildEvent_managerEvent.
Qed.

Lemma manager_only t :
  forallb managerEvent t = true ->
  remoteDials t = [] /\ copies t = [] /\ connCloses t = [] /\ started t = [].
Proof.
  intros H. repeat split; apply (pick_none _ managerEvent); auto;
    intros [] E; simpl in E; congruence.
Qed.

(** ** The aggregate closer *)

Section Closer.

Variable net : Network.

(** The deferred closures close the clients of the stack from the top, all
    of them whatever each close does, and the result is the error held
    before, or else the first error that a close returned. *)
Lemma runDeferred_run (stack : list Client) :
  forall err s, exists s' t,
    runDeferred net stack err s =
      (Returned (match err with
                 | Some _ => err
                 | None => hd_error (closeErrors t)
                 end), s', t) /\
    closed t = stack /\
    forallb isClose t = true /\
    sameVars s s' /\ nextClient s' = nextClient s.
Proof.
  induction stack as [|c below IH]; intros err s.
  - exists s, []. simpl. unfold ret. destruct err; repeat split.
  - set (res := client_Close net (tick s) c).
    set (s1 := {| client := client s; clientCloser := clientCloser s;
                  counter := counter s; nextClient := nextClient s;
                  tick := S (tick s) |}).
    set (err1 := match res with
                 | Returned e => match err with None => e | Some _ => err end
                 | Panicked => err
                 end).
    destruct (IH err1 s1) as (s' & t & Hrun & Hclosed & Hall & Hvars & Hnext).
    exists s', (EvClientClose c res :: t).
    split; [|split; [|split; [|split]]].
    + simpl. unfold bind, interact. fold res s1 err1. rewrite Hrun. simpl.
      f_equal. f_equal. f_equal.
      unfold err1, closeErrors. simpl.
      destruct res as [[e|]|]; destruct err; reflexivity.
    + unfold closed in *. simpl. now rewrite Hclosed.
    + simpl. exact Hall.
    + exact Hvars.
    + exact Hnext.
Qed.

Lemma Close_run (c : sshCleanup) (s : State) :
  exists s' t,
    Close net c s = (Returned (hd_error (closeErrors t)), s', t) /\
    closed t = rev (clients c) /\
    forallb isClose t = true /\
    sameVars s s' /\ nextClient s' = nextClient s.
Proof. exact (runDeferred_run (rev (clients c)) None s). Qed.

End Closer.

Lemma closes_length t :
  forallb isClose t = true -> List.length (closed t) = List.length t.
Proof.
  induction t as [|ev t IH]; simpl; [reflexivity|].
  intros H. apply andb_true_iff in H as [Hev H].
  destruct ev; try discriminate. unfold closed in *. simpl. now rewrite IH.
Qed.

(** C10. [sshCleanup.Close] always returns; it calls [Close] on every
    client of [c.clients] and does nothing else, in the reverse of the order
    in which the hops were appended (the hop dialled last is closed first),
    and it returns the first non-nil error that a close returned in that
    order, or nil when there is none. *)
Theorem Close_reverse_order_first_error (net : Network) (c : sshCleanup)
  (s : State) :
  exists s' t,
    Close net c s = (Returned (hd_error (closeErrors t)), s', t) /\
    closed t = rev (clients c) /\
    List.length t = List.length (clients c).
Proof.
  destruct (Close_run net c s) as (s' & t & Hrun & Hclosed & Hall & _).
  exists s', t. repeat split; auto.
  rewrite <- (closes_length t Hall), Hclosed. apply length_rev.
Qed.

(** Three hops: the closes of the second and of the first hop fail, the
    third is closed first and the error of the second is returned. *)
Example Close_three_hops :
  let net :=
    {| net_DialTimeout := fun _ _ _ => None;
       client_Dial := fun _ _ _ => None;
       ssh_NewClientConn := fun _ _ _ => None;
       client_Close := fun _ c =>
         match c with
         | 0 => Returned (Some "first")
         | 1 => Returned (Some "second")
         | _ => Returned None
         end;
       conn_SendRequest := fun _ _ => None;
       io_Copy := fun _ _ => None |} in
  Close net {| clients := [0; 1; 2] |} initialState =
  (Returned (Some "second"),
   {| client := None; clientCloser := None; counter := 0;
      nextClient := 0; tick := 3 |},
   [EvClientClose 2 (Returned None);
    EvClientClose 1 (Returned (Some "second"));
    EvClientClose 0 (Returned (Some "first"))]).
Proof. reflexivity. Qed.

(** A close that panics does not stop the others, and the panic does not
    leave [Close]. *)
Example Close_recovers :
  let net :=
    {| net_DialTimeout := fun _ _ _ => None;
       client_Dial := fun _ _ _ => None;
       ssh_NewClientConn := fun _ _ _ => None;
       client_Close := fun _ c =>
         match c with
         | 1 => Panicked
         | _ => Returned (Some "closed twice")
         end;
       conn_SendRequest := fun _ _ => None;
       io_Copy := fun _ _ => None |} in
  Close net {| clients := [0; 1] |} initialState =
  (Returned (Some "closed twice"),
   {| client := None; clientCloser := None; counter := 0;
      nextClient := 0; tick := 2 |},
   [EvClientClose 1 Panicked;
    EvClientClose 0 (Returned (Some "closed twice"))]).
Proof. reflexivity. Qed.

(** Every reader of a trace goes through a concatenation. *)
Lemma dialled_app (t1 t2 : list Event) :
  dialled (t1 ++ t2) = dialled t1 ++ dialled t2.
Proof. apply pick_app. Qed.

Lemma hopErrors_app (t1 t2 : list Event) :
  hopErrors (t1 ++ t2) = hopErrors t1 ++ hopErrors t2.
Proof. apply pick_app. Qed.

Lemma established_app (t1 t2 : list Event) :
  established (t1 ++ t2) = established t1 ++ established t2.
Proof. apply pick_app. Qed.

Lemma closed_app (t1 t2 : list Event) :
  closed (t1 ++ t2) = closed t1 ++ closed t2.
Proof. apply pick_app. Qed.

Lemma closeErrors_app (t1 t2 : list Event) :
  closeErrors (t1 ++ t2) = closeErrors t1 ++ closeErrors t2.
Proof. apply pick_app. Qed.

Lemma probed_app (t1 t2 : list Event) :
  probed (t1 ++ t2) = probed t1 ++ probed t2.
Proof. apply pick_app. Qed.

Lemma logged_app (t1 t2 : list Event) :
  logged (t1 ++ t2) = logged t1 ++ logged t2.
Proof. apply pick_app. Qed.

Lemma started_app (t1 t2 : list Event) :
  started (t1 ++ t2) = started t1 ++ started t2.
Proof. apply pick_app. Qed.

Lemma rebuildsStarted_app (t1 t2 : list Event) :
  rebuildsStarted (t1 ++ t2) = rebuildsStarted t1 ++ rebuildsStarted t2.
Proof. apply pick_app. Qed.

Lemma remoteDials_app (t1 t2 : list Event) :
  remoteDials (t1 ++ t2) = remoteDials t1 ++ remoteDials t2.
Proof. apply pick_app. Qed.

Lemma copies_app (t1 t2 : list Event) :
  copies (t1 ++ t2) = copies t1 ++ copies t2.
Proof. apply pick_app. Qed.

Lemma connCloses_app (t1 t2 : list Event) :
  connCloses (t1 ++ t2) = connCloses t1 ++ connCloses t2.
Proof. apply pick_app. Qed.

Lemma calls_app (f : Fn) (t1 t2 : list Event) :
  calls f (t1 ++ t2) = calls f t1 ++ calls f t2.
Proof. apply pick_app. Qed.

Lemma loggedErrors_app (t1 t2 : list Event) :
  loggedErrors (t1 ++ t2) = loggedErrors t1 ++ loggedErrors t2.
Proof. unfold loggedErrors. now rewrite logged_app, flat_map_app. Qed.

Create Rewrite HintDb reads.
#[local] Hint Rewrite dialled_app hopErrors_app established_app closed_app
  closeErrors_app probed_app logged_app started_app rebuildsStarted_app
  remoteDials_app copies_app connCloses_app calls_app loggedErrors_app
  : reads.

(** ** The hop chain builder *)

Lemma last_cons_default {A} (a d : A) (l : list A) :
  last (a :: l) d = last l a.
Proof.
  revert a d. induction l as [|b l IH]; intros a d; [reflexivity|].
  change (last (a :: b :: l) d) with (last (b :: l) d).
  now rewrite !IH.
Qed.

Lemma hopFailure_reads (addr : string) (e : error) (fe : Event) :
  hopFailure addr e fe ->
  established [fe] = [] /\ closed [fe] = [] /\ hopErrors [fe] = [e] /\
  logged [fe] = [] /\ buildEvent fe = true.
Proof.
  destruct fe as [| a z [e'|] | p a [e'|] | a [e'|] | | | | | | | | | |];
    simpl; try tauto; intros [_ <-]; repeat split.
Qed.

Section Builder.

Variable net : Network.

(** One hop: one dial, then a handshake when the dial succeeded; either a
    new client, or the error of the step that failed, as it is. *)
Lemma connectHop_run (proxy : option Client) (addr : string)
  (config : ClientConfig) (s : State) :
  exists r s' t,
    connectHop net proxy addr config s = (Returned r, s', t) /\
    sameVars s s' /\ forallb buildEvent t = true /\
    dialled t = [addr] /\ logged t = [] /\
    match r with
    | inl c => established t = [c] /\ hopErrors t = [] /\ closed t = []
    | inr e =>
        exists t0 fe,
          t = t0 ++ [fe] /\ hopFailure addr e fe /\
          established t0 = [] /\ hopErrors t0 = [] /\ closed t0 = []
    end.
Proof.
  unfold connectHop, bind, interact, ssh_NewClient, ret.
  destruct proxy as [p|]; simpl.
  - destruct (client_Dial net (tick s) p addr) as [e|] eqn:Ed; simpl.
    + do 3 eexists. repeat split.
      exists [], (EvProxyDial p addr (Some e)). repeat split.
    + destruct (ssh_NewClientConn net (S (tick s)) addr config) as [e|] eqn:Eh;
        simpl; do 3 eexists; repeat split.
      exists [EvProxyDial p addr None], (EvHandshake addr (Some e)).
      repeat split.
  - destruct (net_DialTimeout net (tick s) addr (Timeout config)) as [e|]
      eqn:Ed; simpl.
    + do 3 eexists. repeat split.
      exists [], (EvNetDial addr (Timeout config) (Some e)). repeat split.
    + destruct (ssh_NewClientConn net (S (tick s)) addr config) as [e|] eqn:Eh;
        simpl; do 3 eexists; repeat split.
      exists [EvNetDial addr (Timeout config) None],
        (EvHandshake addr (Some e)).
      repeat split.
Qed.

Lemma hopLoop_run (configs : list ClientConfig) (rest : list string) :
  forall i client c s,
    List.length configs = i + List.length rest ->
    exists r s' t,
      hopLoop net configs i rest client c s = (Returned r, s', t) /\
      sameVars s s' /\ forallb buildEvent t = true /\
      match r with
      | inr (client', c') =>
          clients c' = clients c ++ established t /\
          List.length (established t) = List.length rest /\
          client' = last (map Some (established t)) client /\
          dialled t = rest /\ closed t = [] /\ hopErrors t = []
      | inl (x, y, z) =>
          x = None /\ y = None /\
          exists k e,
            z = Some e /\ k < List.length rest /\
            failedAt (clients c) rest k e t
      end.
Proof.
  induction rest as [|addr rest' IH]; intros i client0 c s Hlen.
  - exists (inr (client0, c)), s, []. simpl. unfold ret.
    repeat split; auto. now rewrite app_nil_r.
  - simpl in Hlen.
    destruct (nth_error configs i) as [config|] eqn:Econf;
      [|apply nth_error_None in Econf; lia].
    destruct (connectHop_run client0 addr config s)
      as (r & s1 & t1 & Hhop & Hv1 & Hb1 & Hd1 & Hl1 & Hr).
    destruct r as [cl|e].
    + (* the hop is established *)
      destruct Hr as (Hest1 & Herr1 & Hc1).
      destruct (IH (S i) (Some cl) {| clients := clients c ++ [cl] |} s1)
        as (r & s2 & t2 & Hloop & Hv2 & Hb2 & Hr); [lia|].
      exists r, s2, ([EvLog (LogEstablishing addr)] ++ t1 ++ t2).
      split; [|split; [|split]].
      * simpl. unfold index. rewrite Econf.
        unfold bind at 1. unfold ret at 1.
        unfold bind at 1. unfold log at 1, emit at 1.
        unfold bind at 1. rewrite Hhop. rewrite Hloop. reflexivity.
      * eapply sameVars_trans; eauto.
      * simpl. rewrite forallb_app, Hb1, Hb2. reflexivity.
      * destruct r as [[[x y] z]|[client' c']].
        -- destruct Hr as (Hx & Hy & k & e & Hz & Hk & tb & fe & tc & Ht & Hfe
                           & Hdial & Hest & Hcl & Herr & Htc & Hclosed).
           split; [exact Hx|]. split; [exact Hy|].
           exists (S k), e. split; [exact Hz|]. split; [simpl; lia|].
           exists ([EvLog (LogEstablishing addr)] ++ t1 ++ tb), fe, tc.
           simpl clients in Hclosed. rewrite dialled_app in Hdial.
           rewrite <- !app_assoc. autorewrite with reads.
           rewrite Hd1, Hest1, Hc1, Herr1, Hdial, Hcl, Herr, Hclosed.
           repeat split; auto.
           ++ now rewrite Ht.
           ++ simpl. now rewrite Hest.
           ++ simpl. now rewrite <- !app_assoc.
        -- destruct Hr as (Hcl' & Hlen' & Hlast & Hdial & Hclosed & Herr).
           simpl clients in Hcl'. autorewrite with reads.
           rewrite Hd1, Hest1, Hc1, Herr1, Hdial, Hclosed, Herr.
           repeat split; auto.
           ++ rewrite Hcl'. simpl. now rewrite <- app_assoc.
           ++ simpl. now rewrite Hlen'.
           ++ rewrite Hlast. simpl app. simpl map.
              now rewrite last_cons_default.
    + (* the hop fails *)
      destruct Hr as (t0 & fe & Ht1 & Hfe & Hest0 & Herr0 & Hc0).
      destruct (Close_run net c s1)
        as (s2 & tc & Hclose & Hclosed & Hall & Hv2 & _).
      destruct (hopFailure_reads _ _ _ Hfe) as (_ & _ & _ & _ & Hbfe).
      exists (inl (None, None, Some e)), s2,
        ([EvLog (LogEstablishing addr)] ++ t1
         ++ [EvLog (LogFailedConnect addr e)] ++ tc).
      split; [|split; [|split]].
      * simpl. unfold index. rewrite Econf.
        unfold bind at 1. unfold ret at 1.
        unfold bind at 1. unfold log at 1, emit at 1.
        unfold bind at 1. rewrite Hhop.
        unfold bind at 1. unfold log at 1, emit at 1.
        unfold bind at 1. rewrite Hclose. unfold ret. simpl.
        now rewrite app_nil_r.
      * eapply sameVars_trans; eauto.
      * simpl. rewrite forallb_app, Hb1. simpl.
        revert Hall. apply forallb_weaken, isClose_buildEvent.
      * split; [reflexivity|]. split; [reflexivity|].
        exists 0, e. split; [reflexivity|]. split; [simpl; lia|].
        exists ([EvLog (LogEstablishing addr)] ++ t0), fe, tc.
        subst t1. rewrite <- !app_assoc. autorewrite with reads.
        rewrite dialled_app in Hd1.
        rewrite Hest0, Hc0, Herr0, Hd1, Hclosed.
        repeat split; auto. simpl. now rewrite app_nil_r.
Qed.

End Builder.

Lemma last_map_Some (cs : list Client) (d : Client) :
  cs <> [] -> last (map Some cs) None = Some (last cs d).
Proof.
  induction cs as [|c cs IH]; intros H; [congruence|].
  destruct cs as [|c' cs]; [reflexivity|].
  change (last (map Some (c :: c' :: cs)) None)
    with (last (map Some (c' :: cs)) None).
  change (last (c :: c' :: cs) d) with (last (c' :: cs) d).
  apply IH. discriminate.
Qed.

Section NewClient.

Variable net : Network.

(** [newClient] always returns.  Either it returns the last client of the
    chain with the closer of all its hops, or an error: one of its own when
    the lists do not fit, with no event at all, and else the error of the
    hop that failed. *)
Lemma newClient_run (addrs : list string) (configs : list ClientConfig)
  (s : State) :
  exists nc ncl err s' t,
    newClient net addrs configs s = (Returned (nc, ncl, err), s', t) /\
    sameVars s s' /\ forallb buildEvent t = true /\
    match err with
    | None =>
        nc = Some (last (established t) 0) /\
        ncl = Some {| clients := established t |} /\
        List.length (established t) = List.length addrs /\ addrs <> [] /\
        dialled t = addrs /\ closed t = [] /\ hopErrors t = []
    | Some e =>
        nc = None /\ ncl = None /\
        (((List.length addrs <> List.length configs \/ addrs = []) /\
          t = [] /\ s' = s) \/
         (List.length addrs = List.length configs /\
          exists k, k < List.length addrs /\ failedAt [] addrs k e t))
    end.
Proof.
  unfold newClient.
  destruct (List.length addrs =? List.length configs)%nat eqn:Elen; simpl.
  2:{ apply Nat.eqb_neq in Elen. do 5 eexists. unfold ret.
      split; [reflexivity|]. repeat split; auto. }
  apply Nat.eqb_eq in Elen.
  destruct (List.length addrs =? 0)%nat eqn:Ezero.
  { apply Nat.eqb_eq in Ezero. apply length_zero_iff_nil in Ezero.
    do 5 eexists. unfold ret. split; [reflexivity|]. repeat split; auto. }
  apply Nat.eqb_neq in Ezero.
  destruct (hopLoop_run net configs addrs 0 None {| clients := [] |} s)
    as (r & s' & t & Hloop & Hv & Hb & Hr); [simpl; lia|].
  unfold bind. rewrite Hloop.
  destruct r as [[[x y] z]|[client' c']].
  - destruct Hr as (-> & -> & k & e & -> & Hk & Hfail).
    simpl in Hfail. unfold ret. do 5 eexists. split; [reflexivity|].
    rewrite app_nil_r. split; [exact Hv|]. split; [exact Hb|].
    split; [reflexivity|]. split; [reflexivity|].
    right. split; [exact Elen|]. exists k. auto.
  - destruct Hr as (Hcl & Hlen & Hlast & Hdial & Hclosed & Herr).
    simpl in Hcl. unfold log, emit, ret. simpl.
    do 5 eexists. split; [reflexivity|].
    assert (Hne : established t <> []).
    { intros E. rewrite E in Hlen. simpl in Hlen. lia. }
    autorewrite with reads. rewrite Hdial, Hclosed, Herr, !app_nil_r.
    split; [exact Hv|]. split.
    { rewrite forallb_app, Hb. reflexivity. }
    repeat split; auto.
    + rewrite Hlast. now rewrite (last_map_Some _ 0 Hne).
    + destruct c' as [cs]. simpl in Hcl. now subst cs.
    + intros E. apply Ezero. now rewrite E.
Qed.

End NewClient.

(** C8. When the address list is empty or the number of configs differs
    from the number of addresses, [newClient] returns [(nil, nil, err)]
    with one of its two errors of configuration, the trace is empty and the
    state is as before: there is no dial and no other interaction with the
    network. *)
Theorem newClient_config_error (net : Network) (addrs : list string)
  (configs : list ClientConfig) (s : State) :
  addrs = [] \/ List.length configs <> List.length addrs ->
  exists e,
    newClient net addrs configs s = (Returned (None, None, Some e), s, []) /\
    (e = errors_New "no addresses provided" \/
     e = errors_New "newClient: len(config) != len(addrs)").
Proof.
  intros H. unfold newClient.
  destruct (List.length addrs =? List.length configs)%nat eqn:Elen; simpl.
  - apply Nat.eqb_eq in Elen. destruct H as [-> | H]; [|congruence].
    simpl. eexists. split; [reflexivity|]. now left.
  - eexists. split; [reflexivity|]. now right.
Qed.

(** The theorem at an empty address list and at two addresses with one
    config. *)
Lemma newClient_config_error_witness :
  (exists e,
     newClient quietNet [] [] initialState
       = (Returned (None, None, Some e), initialState, []) /\
     (e = errors_New "no addresses provided" \/
      e = errors_New "newClient: len(config) != len(addrs)")) /\
  (exists e,
     newClient quietNet ["a:22"; "b:22"] [cfg "u"] initialState
       = (Returned (None, None, Some e), initialState, []) /\
     (e = errors_New "no addresses provided" \/
      e = errors_New "newClient: len(config) != len(addrs)")).
Proof.
  split.
  - apply (newClient_config_error quietNet [] [] initialState).
    left. reflexivity.
  - apply (newClient_config_error quietNet ["a:22"; "b:22"] [cfg "u"]
             initialState).
    right. simpl. discriminate.
Defined.

Example newClient_empty :
  newClient quietNet [] [] initialState =
  (Returned (None, None, Some "no addresses provided"), initialState, []).
Proof. reflexivity. Qed.

Example newClient_mismatch :
  newClient quietNet ["a:22"; "b:22"] [cfg "u"] initialState =
  (Returned (None, None, Some "newClient: len(config) != len(addrs)"),
   initialState, []).
Proof. reflexivity. Qed.

(** The reads of the whole trace of a failed build. *)
Lemma failedAt_reads (before : list Client) (rest : list string) (k : nat)
  (e : error) (t : list Event) :
  failedAt before rest k e t ->
  dialled t = firstn (S k) rest /\
  List.length (established t) = k /\
  closed t = rev (before ++ established t) /\
  hopErrors t = [e] /\
  In (LogFailedConnect (nth k rest EmptyString) e) (logged t).
Proof.
  intros (tb & fe & tc & -> & Hfe & Hdial & Hest & Hcl & Herr & Htc & Hclosed).
  destruct (hopFailure_reads _ _ _ Hfe) as (Hefe & Hcfe & Herrfe & Hlfe & _).
  destruct (closes_only tc Htc) as (Hdtc & Hetc & Hestc & Hltc).
  set (line := EvLog (LogFailedConnect (nth k rest EmptyString) e)).
  change (tb ++ [fe; line] ++ tc) with (tb ++ ([fe] ++ [line]) ++ tc).
  rewrite app_assoc, (app_assoc tb).
  autorewrite with reads.
  rewrite dialled_app in Hdial.
  rewrite Hdial, Hcl, Herr, Hefe, Hcfe, Herrfe, Hlfe, Hdtc, Hetc, Hestc, Hltc,
    Hclosed.
  simpl. rewrite !app_nil_r. repeat split; auto.
  apply in_or_app. right. now left.
Qed.

(** C1 (amended). When the lists fit, with at least one hop, and
    [newClient] returns an error [e], it returns [(nil, nil, e)] and there
    is a hop [k], between 1 and the number of hops, such that the trace is
    [tb], then the failing dial or handshake [fe] of hop [k], then the log
    line with the address of hop [k] and [e], then [tc]:
    - [fe] is a dial or handshake for the address of hop [k], and the error
      that it returned is [e], the very error that [newClient] returns: the
      address is in the log line, not in the error;
    - the hops dialled are hops 1 to [k], in order, and nothing is dialled
      afterwards: no hop beyond [k] is attempted;
    - [tb] established [k-1] clients without an error and closed none, and
      hop [k] established no client, so it is not in the closer;
    - [tc] consists of calls of [Close] only, on exactly the [k-1]
      established clients, last one first, whatever each call returns. *)
Theorem newClient_failure_at_hop (net : Network) (addrs : list string)
  (configs : list ClientConfig) (s s' : State) (nc : option Client)
  (ncl : option sshCleanup) (e : error) (t : list Event) :
  addrs <> [] ->
  List.length addrs = List.length configs ->
  newClient net addrs configs s = (Returned (nc, ncl, Some e), s', t) ->
  nc = None /\ ncl = None /\
  exists k tb fe tc,
    1 <= k <= List.length addrs /\
    t = tb ++ [fe; EvLog (LogFailedConnect (nth (k - 1) addrs EmptyString) e)]
           ++ tc /\
    hopFailure (nth (k - 1) addrs EmptyString) e fe /\
    dialled (tb ++ [fe]) = firstn k addrs /\ dialled tc = [] /\
    List.length (established tb) = k - 1 /\ established ([fe] ++ tc) = [] /\
    closed tb = [] /\ hopErrors tb = [] /\
    forallb isClose tc = true /\ closed tc = rev (established tb).
Proof.
  intros Hne Hlen Hrun.
  destruct (newClient_run net addrs configs s)
    as (nc' & ncl' & err & s1 & t1 & Hrun' & _ & _ & Hr).
  rewrite Hrun in Hrun'. inversion Hrun'; subst nc' ncl' err s1 t1.
  destruct Hr as (-> & -> & [([H|H] & _) | (_ & k & Hk & Hfail)]);
    [congruence | congruence |].
  split; [reflexivity|]. split; [reflexivity|].
  destruct Hfail as (tb & fe & tc & Ht & Hfe & Hdial & Hest & Hcl & Herr & Htc
                     & Hclosed).
  destruct (hopFailure_reads _ _ _ Hfe) as (Hefe & _).
  destruct (closes_only tc Htc) as (Hdtc & _ & Hestc & _).
  exists (S k), tb, fe, tc.
  replace (S k - 1) with k by lia.
  rewrite established_app, Hefe, Hestc.
  repeat split; auto; lia.
Qed.

(** The theorem on two hops where the handshake with the second hop fails
    and the close of the first hop fails too. *)
Lemma newClient_failure_at_hop_witness :
  let run := newClient (handshakeFails "b:22") ["a:22"; "b:22"]
               [cfg "u"; cfg "v"] initialState in
  fst (fst run) = Returned (None, None, Some "ssh: handshake failed: EOF") /\
  exists k tb fe tc,
    1 <= k <= 2 /\
    snd run = tb ++ [fe; EvLog (LogFailedConnect
                                  (nth (k - 1) ["a:22"; "b:22"] EmptyString)
                                  "ssh: handshake failed: EOF")] ++ tc /\
    hopFailure (nth (k - 1) ["a:22"; "b:22"] EmptyString)
      "ssh: handshake failed: EOF" fe /\
    dialled (tb ++ [fe]) = firstn k ["a:22"; "b:22"] /\ dialled tc = [] /\
    List.length (established tb) = k - 1 /\ established ([fe] ++ tc) = [] /\
    closed tb = [] /\ hopErrors tb = [] /\
    forallb isClose tc = true /\ closed tc = rev (established tb).
Proof.
  intros run. split.
  - reflexivity.
  - apply (newClient_failure_at_hop (handshakeFails "b:22") ["a:22"; "b:22"]
             [cfg "u"; cfg "v"] initialState (snd (fst run)) None None
             "ssh: handshake failed: EOF" (snd run)).
    + discriminate.
    + reflexivity.
    + reflexivity.
Defined.

(** C1, as stated, fails.  The handshake with the second of two hops
    fails: [newClient] returns the error of the handshake as it is, and its
    text does not have the address of the hop, which is in the log line
    only. *)
Lemma newClient_error_not_tagged :
  let run := newClient (handshakeFails "b:22") ["a:22"; "b:22"]
               [cfg "u"; cfg "v"] initialState in
  fst (fst run) = Returned (None, None, Some "ssh: handshake failed: EOF") /\
  In (EvHandshake "b:22" (Some "ssh: handshake failed: EOF")) (snd run) /\
  In (EvLog (LogFailedConnect "b:22" "ssh: handshake failed: EOF")) (snd run) /\
  strings.Contains "ssh: handshake failed: EOF" "b:22" = false.
Proof.
  vm_compute. repeat split; auto 10.
Qed.

(** ** The liveness prober *)

Section Prober.

Variable net : Network.

Lemma clientAlive_run (cl : option Client) (cleanup : option sshCleanup)
  (s : State) :
  exists r s' t,
    clientAlive net cl cleanup s = (r, s', t) /\
    sameVars s s' /\ forallb managerEvent t = true /\
    calls Fconnect t = [] /\ calls Freconnect t = [] /\
    match r with
    | Returned true => exists c, cl = Some c /\ t = [EvKeepalive c None]
    | Returned false =>
        match cl with
        | None => t = [] /\ s' = s
        | Some c =>
            exists e closer tc,
              cleanup = Some closer /\
              t = [EvKeepalive c (Some e); EvLog LogNotResponding] ++ tc ++
                  match hd_error (closeErrors tc) with
                  | Some e' => [EvLog (LogFailedClose e')]
                  | None => []
                  end /\
              forallb isClose tc = true /\
              closed tc = rev (clients closer)
        end
    | Panicked => cl <> None /\ cleanup = None
    end.
Proof.
  destruct cl as [c|]; simpl.
  2:{ exists (Returned false), s, []. repeat split. }
  unfold bind at 1. unfold interact at 1.
  destruct (conn_SendRequest net (tick s) c) as [e|] eqn:Eprobe.
  2:{ do 3 eexists. unfold ret. split; [reflexivity|]. repeat split.
      exists c. split; reflexivity. }
  unfold bind at 1. unfold log at 1, emit at 1.
  destruct cleanup as [closer|].
  2:{ do 3 eexists. unfold bind, panic. split; [reflexivity|].
      repeat split. discriminate. }
  match goal with
  | |- context [bind (Close net closer) _ ?s1] =>
      destruct (Close_run net closer s1)
        as (s2 & tc & Hclose & Hclosed & Hall & Hv & _)
  end.
  unfold bind at 1. rewrite Hclose.
  assert (Hm : forallb managerEvent tc = true).
  { revert Hall. apply forallb_weaken. intros ev H.
    now apply buildEvent_managerEvent, isClose_buildEvent. }
  assert (Hcalls : forall f, calls f tc = []).
  { intros f. apply (pick_none _ isClose); auto.
    intros [] E; simpl in E; congruence. }
  destruct (hd_error (closeErrors tc)) as [e'|] eqn:Ehd.
  - unfold bind, log, emit, ret. do 3 eexists. split; [reflexivity|].
    autorewrite with reads. rewrite !Hcalls, !forallb_app, Hm. simpl.
    repeat split; try apply Hv.
    exists e, closer, tc. rewrite Ehd, ?app_nil_r. repeat split; auto.
  - unfold bind, ret. do 3 eexists. split; [reflexivity|].
    autorewrite with reads. rewrite !Hcalls, !forallb_app, Hm. simpl.
    repeat split; try apply Hv.
    exists e, closer, tc. rewrite Ehd, ?app_nil_r. repeat split; auto.
Qed.

End Prober.

(** C5 (amended). When [clientAlive] returns false for a client that is
    not nil, the probe of that client failed, and then the closer of the
    handle was invoked before the call returned: every client of the closer
    was closed, last one first.  For a nil client [clientAlive] returns
    false without a probe and without invoking the closer. *)
Theorem clientAlive_false_closes (net : Network) (cl : option Client)
  (cleanup : option sshCleanup) (s s' : State) (t : list Event) :
  clientAlive net cl cleanup s = (Returned false, s', t) ->
  match cl with
  | None => t = [] /\ s' = s
  | Some c =>
      exists e closer tc,
        cleanup = Some closer /\
        t = [EvKeepalive c (Some e); EvLog LogNotResponding] ++ tc ++
            match hd_error (closeErrors tc) with
            | Some e' => [EvLog (LogFailedClose e')]
            | None => []
            end /\
        forallb isClose tc = true /\
        closed tc = rev (clients closer) /\
        closed t = rev (clients closer)
  end.
Proof.
  intros Hrun.
  destruct (clientAlive_run net cl cleanup s)
    as (r & s1 & t1 & Hrun' & _ & _ & _ & _ & Hr).
  rewrite Hrun in Hrun'. inversion Hrun'; subst r s1 t1.
  destruct cl as [c|]; [|exact Hr].
  destruct Hr as (e & closer & tc & Hcl & Ht & Hall & Hclosed).
  exists e, closer, tc. repeat split; auto.
  rewrite Ht. autorewrite with reads. rewrite Hclosed.
  destruct (hd_error (closeErrors tc)); simpl; now rewrite app_nil_r.
Qed.

(** The theorem on a handle of three hops whose probe fails, and on the
    nil client. *)
Lemma clientAlive_false_closes_witness :
  let handle := Some {| clients := [0; 1; 2] |} in
  let run := clientAlive networkDown (Some 2) handle initialState in
  let runNil := clientAlive networkDown None None initialState in
  (fst (fst run) = Returned false /\
   exists e closer tc,
     handle = Some closer /\
     snd run = [EvKeepalive 2 (Some e); EvLog LogNotResponding] ++ tc ++
               match hd_error (closeErrors tc) with
               | Some e' => [EvLog (LogFailedClose e')]
               | None => []
               end /\
     forallb isClose tc = true /\
     closed tc = rev (clients closer) /\
     closed (snd run) = rev (clients closer)) /\
  (fst (fst runNil) = Returned false /\
   snd runNil = [] /\ snd (fst runNil) = initialState).
Proof.
  intros handle run runNil. split; split.
  - reflexivity.
  - apply (clientAlive_false_closes networkDown (Some 2) handle initialState
             (snd (fst run)) (snd run)).
    reflexivity.
  - reflexivity.
  - apply (clientAlive_false_closes networkDown None None initialState
             (snd (fst runNil)) (snd runNil)).
    reflexivity.
Defined.

(** C5, as stated, fails for a nil client: [clientAlive] returns false, and
    nothing was closed although the closer holds a client. *)
Lemma clientAlive_nil_closer_not_invoked :
  let closer := {| clients := [7] |} in
  let run := clientAlive networkDown None (Some closer) initialState in
  fst (fst run) = Returned false /\
  snd run = [] /\
  closed (snd run) <> rev (clients closer).
Proof.
  vm_compute. repeat split. discriminate.
Qed.

(** ** The chain manager *)

Section Manager.

Variable net : Network.

(** [connect] either returns the current client, which answered the probe,
    or installs what a build returned, after a probe that failed or with no
    client to probe. *)
Lemma connect_run (addrs : list string) (configs : list ClientConfig)
  (s : State) :
  exists r s' t,
    connect net addrs configs s = (r, s', t) /\
    forallb managerEvent t = true /\
    calls Fconnect t = [tt] /\ calls Freconnect t = [] /\
    match r with
    | Returned (x, None) =>
        exists c, x = Some c /\ client s' = Some c
    | Returned (x, Some e) =>
        x = None /\ client s' = None /\ clientCloser s' = None /\
        exists s0 t0 s1 t1,
          clientAlive net (client s) (clientCloser s) s
            = (Returned false, s0, t0) /\
          newClient net addrs configs s0
            = (Returned (None, None, Some e), s1, t1) /\
          t = [EvCall Fconnect; EvLock] ++ t0 ++ t1 ++ [EvUnlock] /\
          counter s' = counter s /\ nextClient s' = nextClient s1 /\
          tick s' = tick s1
    | Panicked => client s <> None /\ clientCloser s = None
    end.
Proof.
  unfold connect.
  unfold bind at 1. unfold emit at 1.
  unfold bind at 1. unfold emit at 1.
  unfold defer.
  unfold bind at 1. unfold getClient at 1.
  unfold bind at 1. unfold getClientCloser at 1.
  destruct (clientAlive_run net (client s) (clientCloser s) s)
    as (r & s0 & t0 & Halive & Hv0 & Hm0 & Hc0 & Hr0 & Hr).
  unfold bind at 1. rewrite Halive.
  destruct r as [[|]|].
  - (* the client is alive *)
    destruct Hr as (c & Hcl & Ht0).
    unfold bind, getClient, ret, emit. do 3 eexists. split; [reflexivity|].
    autorewrite with reads. rewrite Hc0, Hr0, !forallb_app, Hm0.
    repeat split. exists c.
    destruct Hv0 as (Hv & _). rewrite Hv. auto.
  - (* a new client is set up *)
    destruct (newClient_run net addrs configs s0)
      as (nc & ncl & err & s1 & t1 & Hnew & Hv1 & Hb1 & Hr1).
    destruct (build_only t1 Hb1) as (_ & Hc1 & Hrc1 & Hm1).
    unfold bind at 1. rewrite Hnew.
    destruct err as [e|].
    + destruct Hr1 as (-> & -> & _).
      unfold bind, setClient, setClientCloser, getClient, ret, emit.
      do 3 eexists. split; [reflexivity|].
      autorewrite with reads.
      rewrite Hc0, Hr0, Hc1, Hrc1, !forallb_app, Hm0, Hm1.
      simpl. repeat split.
      exists s0, t0, s1, t1. rewrite !app_nil_r.
      destruct Hv0 as (_ & _ & Hk0). destruct Hv1 as (_ & _ & Hk1).
      split; [reflexivity|]. split; [exact Hnew|].
      split; [simpl; now rewrite <- app_assoc|].
      simpl. split; [congruence|]. split; reflexivity.
    + destruct Hr1 as (-> & -> & _).
      unfold bind, setClient, setClientCloser, getClient, ret, emit.
      do 3 eexists. split; [reflexivity|].
      autorewrite with reads.
      rewrite Hc0, Hr0, Hc1, Hrc1, !forallb_app, Hm0, Hm1.
      simpl. repeat split.
      eexists. split; reflexivity.
  - (* [cleanup.Close()] on a nil closer *)
    do 3 eexists. split; [reflexivity|].
    autorewrite with reads. rewrite Hc0, Hr0, !forallb_app, Hm0.
    repeat split; apply Hr.
Qed.

(** With no current client, [connect] is a build between [Lock] and
    [Unlock], without a probe, and it installs what the build returned. *)
Lemma connect_from_empty (addrs : list string) (configs : list ClientConfig)
  (s s1 : State) (nc : option Client) (ncl : option sshCleanup)
  (err : option error) (t1 : list Event) :
  client s = None ->
  newClient net addrs configs s = (Returned (nc, ncl, err), s1, t1) ->
  connect net addrs configs s =
  (Returned (match err with Some _ => None | None => nc end, err),
   {| client := match err with Some _ => None | None => nc end;
      clientCloser := ncl; counter := counter s1;
      nextClient := nextClient s1; tick := tick s1 |},
   [EvCall Fconnect; EvLock] ++ t1 ++ [EvUnlock]).
Proof.
  intros Hnil Hnew.
  unfold connect.
  unfold bind at 1. unfold emit at 1.
  unfold bind at 1. unfold emit at 1.
  unfold defer.
  unfold bind at 1. unfold getClient at 1.
  unfold bind at 1. unfold getClientCloser at 1.
  rewrite Hnil. unfold clientAlive.
  unfold bind at 1. unfold ret at 1.
  unfold bind at 1. rewrite Hnew.
  unfold bind, setClient, setClientCloser, getClient, ret, emit.
  destruct err; simpl; now rewrite ?app_nil_r.
Qed.

(** [reconnect] is a build, and then, when the build succeeded, the swap
    between [Lock] and [Unlock]. *)
Lemma reconnect_run (addrs : list string) (configs : list ClientConfig)
  (s s1 : State) (nc : option Client) (ncl : option sshCleanup)
  (err : option error) (t1 : list Event) :
  newClient net addrs configs s = (Returned (nc, ncl, err), s1, t1) ->
  reconnect net addrs configs s =
  match err with
  | Some e => (Returned (None, Some e), s1, [EvCall Freconnect] ++ t1)
  | None =>
      (Returned (nc, None),
       {| client := nc; clientCloser := ncl; counter := counter s1;
          nextClient := nextClient s1; tick := tick s1 |},
       [EvCall Freconnect] ++ t1 ++ [EvLock; EvUnlock])
  end.
Proof.
  intros Hnew. unfold reconnect.
  unfold bind at 1. unfold emit at 1.
  unfold bind at 1. rewrite Hnew.
  destruct err.
  - unfold ret. now rewrite app_nil_r.
  - unfold bind, defer, setClient, setClientCloser, ret, emit. reflexivity.
Qed.

End Manager.

(** C3. [reconnect] first builds, and the build leaves [client] and
    [clientCloser] as they are.  When the build succeeds, [reconnect] then
    takes the lock, stores the new client and the new closer in [client]
    and [clientCloser], and returns the new client.  When the build fails,
    [reconnect] returns the error, takes no lock, and [client],
    [clientCloser] and [counter] are what they were before the call. *)
Theorem reconnect_swaps_after_success (net : Network) (addrs : list string)
  (configs : list ClientConfig) (s : State) :
  exists nc ncl err s1 t1,
    newClient net addrs configs s = (Returned (nc, ncl, err), s1, t1) /\
    sameVars s s1 /\
    match err with
    | None =>
        exists c closer s',
          nc = Some c /\ ncl = Some closer /\
          reconnect net addrs configs s =
            (Returned (Some c, None), s',
             [EvCall Freconnect] ++ t1 ++ [EvLock; EvUnlock]) /\
          client s' = Some c /\ clientCloser s' = Some closer
    | Some e =>
        exists s',
          reconnect net addrs configs s =
            (Returned (None, Some e), s', [EvCall Freconnect] ++ t1) /\
          sameVars s s'
    end.
Proof.
  destruct (newClient_run net addrs configs s)
    as (nc & ncl & err & s1 & t1 & Hnew & Hv & _ & Hr).
  exists nc, ncl, err, s1, t1. split; [exact Hnew|]. split; [exact Hv|].
  rewrite (reconnect_run net addrs configs s s1 nc ncl err t1 Hnew).
  destruct err as [e|].
  - exists s1. split; [reflexivity | exact Hv].
  - destruct Hr as (-> & -> & _).
    do 3 eexists. repeat split.
Qed.

Example reconnect_success :
  reconnect quietNet ["a:22"] [cfg "u"]
    {| client := Some 7; clientCloser := Some {| clients := [7] |};
       counter := 3; nextClient := 8; tick := 0 |} =
  (Returned (Some 8, None),
   {| client := Some 8; clientCloser := Some {| clients := [8] |};
      counter := 3; nextClient := 9; tick := 2 |},
   [EvCall Freconnect; EvLog (LogEstablishing "a:22");
    EvNetDial "a:22" 0 None; EvHandshake "a:22" None; EvNewClient 8;
    EvLog (LogConnectedFinal "a:22"); EvLock; EvUnlock]).
Proof. reflexivity. Qed.

Example reconnect_failure :
  reconnect networkDown ["a:22"] [cfg "u"]
    {| client := Some 7; clientCloser := Some {| clients := [7] |};
       counter := 3; nextClient := 8; tick := 0 |} =
  (Returned (None, Some "dial tcp: i/o timeout"),
   {| client := Some 7; clientCloser := Some {| clients := [7] |};
      counter := 3; nextClient := 8; tick := 1 |},
   [EvCall Freconnect; EvLog (LogEstablishing "a:22");
    EvNetDial "a:22" 0 (Some "dial tcp: i/o timeout");
    EvLog (LogFailedConnect "a:22" "dial tcp: i/o timeout")]).
Proof. reflexivity. Qed.

(** C4. When [connect] returns an error, which it does only after it found
    the current handle not alive and the build failed, it returns a nil
    client and has set [client] (and [clientCloser]) to nil.  The next
    [connect] then sends no probe: it is a new build between [Lock] and
    [Unlock], and it returns what that build returns. *)
Theorem connect_failure_clears (net : Network) (addrs : list string)
  (configs : list ClientConfig) (s s' : State) (x : option Client)
  (e : error) (t : list Event) :
  connect net addrs configs s = (Returned (x, Some e), s', t) ->
  x = None /\ client s' = None /\ clientCloser s' = None /\
  exists s0 t0 s1 t1,
    clientAlive net (client s) (clientCloser s) s = (Returned false, s0, t0) /\
    newClient net addrs configs s0 = (Returned (None, None, Some e), s1, t1) /\
    exists nc ncl err s2 t2 s3,
      newClient net addrs configs s' = (Returned (nc, ncl, err), s2, t2) /\
      connect net addrs configs s' =
        (Returned (match err with Some _ => None | None => nc end, err), s3,
         [EvCall Fconnect; EvLock] ++ t2 ++ [EvUnlock]) /\
      probed ([EvCall Fconnect; EvLock] ++ t2 ++ [EvUnlock]) = [].
Proof.
  intros Hrun.
  destruct (connect_run net addrs configs s)
    as (r & s1 & t1 & Hrun' & _ & _ & _ & Hr).
  rewrite Hrun in Hrun'. inversion Hrun'; subst r s1 t1.
  destruct Hr as (Hx & Hc & Hcc & s0 & t0 & s1 & t1 & Halive & Hnew & _).
  split; [exact Hx|]. split; [exact Hc|]. split; [exact Hcc|].
  exists s0, t0, s1, t1. split; [exact Halive|]. split; [exact Hnew|].
  destruct (newClient_run net addrs configs s')
    as (nc & ncl & err & s2 & t2 & Hnew2 & _ & Hb2 & _).
  destruct (build_only t2 Hb2) as (Hp2 & _).
  exists nc, ncl, err, s2, t2. eexists.
  split; [exact Hnew2|]. split.
  - apply (connect_from_empty net addrs configs s' s2 nc ncl err t2 Hc Hnew2).
  - autorewrite with reads. now rewrite Hp2.
Qed.

(** The theorem on a handle of one hop while nothing can be reached: the
    probe fails, the handle is closed, and the build fails at the first
    dial. *)
Lemma connect_failure_clears_witness :
  let s := {| client := Some 0; clientCloser := Some {| clients := [0] |};
              counter := 0; nextClient := 1; tick := 0 |} in
  let run := connect networkDown ["a:22"] [cfg "u"] s in
  let s' := snd (fst run) in
  fst (fst run) = Returned (None, Some "dial tcp: i/o timeout") /\
  client s' = None /\ clientCloser s' = None /\
  exists s0 t0 s1 t1,
    clientAlive networkDown (client s) (clientCloser s) s
      = (Returned false, s0, t0) /\
    newClient networkDown ["a:22"] [cfg "u"] s0
      = (Returned (None, None, Some "dial tcp: i/o timeout"), s1, t1) /\
    exists nc ncl err s2 t2 s3,
      newClient networkDown ["a:22"] [cfg "u"] s'
        = (Returned (nc, ncl, err), s2, t2) /\
      connect networkDown ["a:22"] [cfg "u"] s' =
        (Returned (match err with Some _ => None | None => nc end, err), s3,
         [EvCall Fconnect; EvLock] ++ t2 ++ [EvUnlock]) /\
      probed ([EvCall Fconnect; EvLock] ++ t2 ++ [EvUnlock]) = [].
Proof.
  intros s run s'. split.
  - reflexivity.
  - apply (connect_failure_clears networkDown ["a:22"] [cfg "u"] s s' None
             "dial tcp: i/o timeout" (snd run)).
    reflexivity.
Defined.

Example connect_failure_trace :
  connect networkDown ["a:22"] [cfg "u"]
    {| client := Some 0; clientCloser := Some {| clients := [0] |};
       counter := 0; nextClient := 1; tick := 0 |} =
  (Returned (None, Some "dial tcp: i/o timeout"),
   {| client := None; clientCloser := None; counter := 0;
      nextClient := 1; tick := 3 |},
   [EvCall Fconnect; EvLock; EvKeepalive 0 (Some "EOF"); EvLog LogNotResponding;
    EvClientClose 0 (Returned None); EvLog (LogEstablishing "a:22");
    EvNetDial "a:22" 0 (Some "dial tcp: i/o timeout");
    EvLog (LogFailedConnect "a:22" "dial tcp: i/o timeout"); EvUnlock]).
Proof. reflexivity. Qed.

(** The handles that the program stores have a client and a closer, or
    neither, so [connect] does not panic on them. *)
Lemma connect_returns (net : Network) (addrs : list string)
  (configs : list ClientConfig) (s : State) :
  (client s <> None -> clientCloser s <> None) ->
  exists x err s' t,
    connect net addrs configs s = (Returned (x, err), s', t) /\
    (client s' <> None -> clientCloser s' <> None).
Proof.
  intros Hinv.
  unfold connect.
  unfold bind at 1. unfold emit at 1.
  unfold bind at 1. unfold emit at 1.
  unfold defer.
  unfold bind at 1. unfold getClient at 1.
  unfold bind at 1. unfold getClientCloser at 1.
  destruct (clientAlive_run net (client s) (clientCloser s) s)
    as (r & s0 & t0 & Halive & Hv0 & _ & _ & _ & Hr).
  unfold bind at 1. rewrite Halive.
  destruct r as [[|]|].
  - unfold bind, getClient, ret, emit. do 4 eexists. split; [reflexivity|].
    destruct Hv0 as (Hv1 & Hv2 & _). rewrite Hv1, Hv2. exact Hinv.
  - destruct (newClient_run net addrs configs s0)
      as (nc & ncl & err & s1 & t1 & Hnew & _ & _ & Hr1).
    unfold bind at 1. rewrite Hnew.
    destruct err as [e|].
    + destruct Hr1 as (-> & -> & _).
      unfold bind, setClient, setClientCloser, getClient, ret, emit.
      do 4 eexists. split; [reflexivity|]. simpl. congruence.
    + destruct Hr1 as (-> & -> & _).
      unfold bind, setClient, setClientCloser, getClient, ret, emit.
      do 4 eexists. split; [reflexivity|]. simpl. discriminate.
  - destruct Hr as (Hc & Hcc). now apply Hinv in Hc.
Qed.

(** ** The reconnect scheduler *)

(** One call: the counter goes up by one modulo 2^64, and a rebuild is
    started in the background exactly when the new value is a multiple of
    [counterCycle]. *)
Lemma scheduleReconnect_run (addrs : list string)
  (configs : list ClientConfig) (s : State) :
  let n := ((counter s + 1) mod 2 ^ 64)%Z in
  scheduleReconnect addrs configs s =
  (Returned tt,
   {| client := client s; clientCloser := clientCloser s; counter := n;
      nextClient := nextClient s; tick := tick s |},
   if (n mod counterCycle =? 0)%Z
   then [EvLog LogSchedulingReconnect; EvGo (GoReconnect addrs configs)]
   else []).
Proof.
  intros n. unfold scheduleReconnect, bind, atomic_AddUint64. fold n.
  destruct (n mod counterCycle =? 0)%Z; reflexivity.
Qed.

Lemma div_1000_succ (n : nat) :
  S n / 1000 = if (S n mod 1000 =? 0)%nat then S (n / 1000) else n / 1000.
Proof.
  pose proof (Nat.div_mod_eq n 1000) as Hn.
  pose proof (Nat.mod_upper_bound n 1000 ltac:(discriminate)) as Hr.
  destruct (S n mod 1000 =? 0)%nat eqn:E.
  - apply Nat.eqb_eq in E.
    pose proof (Nat.div_mod_eq (S n) 1000) as HS.
    rewrite E in HS. lia.
  - apply Nat.eqb_neq in E.
    pose proof (Nat.div_mod_eq (S n) 1000) as HS.
    pose proof (Nat.mod_upper_bound (S n) 1000 ltac:(discriminate)) as HrS.
    lia.
Qed.

Lemma counter_cycle_nat (n : nat) :
  (Z.of_nat n mod counterCycle =? 0)%Z = (n mod 1000 =? 0)%nat.
Proof.
  unfold counterCycle. change 1000%Z with (Z.of_nat 1000).
  rewrite <- Nat2Z.inj_mod.
  destruct (n mod 1000 =? 0)%nat eqn:E.
  - apply Nat.eqb_eq in E. rewrite E. reflexivity.
  - apply Nat.eqb_neq in E. apply Z.eqb_neq. lia.
Qed.

(** The trace of [q] rebuilds started in the background. *)
Lemma rebuildsStarted_repeat (addrs : list string)
  (configs : list ClientConfig) (q : nat) :
  rebuildsStarted
    (List.concat (repeat [EvLog LogSchedulingReconnect;
                     EvGo (GoReconnect addrs configs)] q))
  = repeat (GoReconnect addrs configs) q.
Proof.
  induction q as [|q IH]; [reflexivity|].
  simpl. unfold rebuildsStarted in *. simpl. now rewrite IH.
Qed.

Lemma repeatM_scheduleReconnect (addrs : list string)
  (configs : list ClientConfig) (s : State) (n : nat) :
  counter s = 0%Z ->
  (Z.of_nat n < 2 ^ 64)%Z ->
  repeatM n (scheduleReconnect addrs configs) s =
  (Returned tt,
   {| client := client s; clientCloser := clientCloser s;
      counter := Z.of_nat n; nextClient := nextClient s; tick := tick s |},
   List.concat (repeat [EvLog LogSchedulingReconnect;
                   EvGo (GoReconnect addrs configs)] (n / 1000))).
Proof.
  intros Hzero. induction n as [|n IH]; intros Hbound.
  - simpl. unfold ret. destruct s. simpl in *. now subst.
  - change (repeatM (S n) (scheduleReconnect addrs configs))
      with (repeatM n (scheduleReconnect addrs configs) ;;
            scheduleReconnect addrs configs).
    unfold bind. rewrite IH by lia.
    rewrite scheduleReconnect_run. cbv zeta. cbn [counter client clientCloser
                                                   nextClient tick].
    replace ((Z.of_nat n + 1) mod 2 ^ 64)%Z with (Z.of_nat (S n))
      by (rewrite Z.mod_small; lia).
    rewrite counter_cycle_nat, div_1000_succ.
    destruct (S n mod 1000 =? 0)%nat.
    + f_equal.
      change (S (n / 1000)) with (1 + n / 1000).
      rewrite Nat.add_comm, repeat_app, List.concat_app. reflexivity.
    + now rewrite app_nil_r.
Qed.

(** C7. From the counter at zero, [n] sequential calls of
    [scheduleReconnect], with [n] below 2^64, all return, and their trace is
    [n / 1000] times the log line followed by the start of one goroutine
    [reconnect]; no build runs inside the calls.  So the calls 1 to 999 start
    no rebuild, and the next call, call [n + 1], starts exactly one rebuild,
    in the background, when [n + 1] is a multiple of 1000, and none
    otherwise. *)
Theorem scheduleReconnect_cadence (addrs : list string)
  (configs : list ClientConfig) (s : State) (n : nat) :
  counter s = 0%Z ->
  (Z.of_nat (S n) < 2 ^ 64)%Z ->
  exists s' t,
    repeatM n (scheduleReconnect addrs configs) s = (Returned tt, s', t) /\
    t = List.concat (repeat [EvLog LogSchedulingReconnect;
                        EvGo (GoReconnect addrs configs)] (n / 1000)) /\
    rebuildsStarted t = repeat (GoReconnect addrs configs) (n / 1000) /\
    started t = rebuildsStarted t /\
    (n < 1000 -> t = []) /\
    exists s'',
      scheduleReconnect addrs configs s' =
      (Returned tt, s'',
       if (S n mod 1000 =? 0)%nat
       then [EvLog LogSchedulingReconnect; EvGo (GoReconnect addrs configs)]
       else []).
Proof.
  intros Hzero Hbound.
  do 2 eexists. split.
  { apply repeatM_scheduleReconnect; [exact Hzero | lia]. }
  split; [reflexivity|].
  split; [apply rebuildsStarted_repeat|].
  split.
  { induction (n / 1000) as [|q IH]; [reflexivity|].
    simpl. unfold started, rebuildsStarted in *. simpl. now rewrite IH. }
  split.
  { intros Hn. now rewrite (Nat.div_small n 1000 Hn). }
  eexists. rewrite scheduleReconnect_run. cbv zeta.
  cbn [counter client clientCloser nextClient tick].
  replace ((Z.of_nat n + 1) mod 2 ^ 64)%Z with (Z.of_nat (S n))
    by (rewrite Z.mod_small; lia).
  rewrite counter_cycle_nat. reflexivity.
Qed.

(** The theorem at 1999 calls from the state at process start: one rebuild
    so far, and call 2000 starts the second. *)
Lemma scheduleReconnect_cadence_witness :
  let m := scheduleReconnect ["a:22"] [cfg "u"] in
  exists s' t,
    repeatM 1999 m initialState = (Returned tt, s', t) /\
    t = List.concat (repeat [EvLog LogSchedulingReconnect;
                        EvGo (GoReconnect ["a:22"] [cfg "u"])] (1999 / 1000)) /\
    rebuildsStarted t = repeat (GoReconnect ["a:22"] [cfg "u"]) (1999 / 1000) /\
    started t = rebuildsStarted t /\
    (1999 < 1000 -> t = []) /\
    exists s'',
      m s' =
      (Returned tt, s'',
       if (2000 mod 1000 =? 0)%nat
       then [EvLog LogSchedulingReconnect;
             EvGo (GoReconnect ["a:22"] [cfg "u"])]
       else []).
Proof.
  intros m.
  apply (scheduleReconnect_cadence ["a:22"] [cfg "u"] initialState 1999).
  - reflexivity.
  - reflexivity.
Defined.

Example scheduleReconnect_first_call :
  scheduleReconnect ["a:22"] [cfg "u"] initialState =
  (Returned tt,
   {| client := None; clientCloser := None; counter := 1;
      nextClient := 0; tick := 0 |}, []).
Proof. reflexivity. Qed.

Example scheduleReconnect_thousandth_call :
  scheduleReconnect ["a:22"] [cfg "u"]
    {| client := None; clientCloser := None; counter := 999;
       nextClient := 0; tick := 0 |} =
  (Returned tt,
   {| client := None; clientCloser := None; counter := 1000;
      nextClient := 0; tick := 0 |},
   [EvLog LogSchedulingReconnect; EvGo (GoReconnect ["a:22"] [cfg "u"])]).
Proof. reflexivity. Qed.

(** ** The forwarding engine *)

Section Forwarding.

Variable net : Network.

(** When [connect] fails, [forward] only closes the local connection. *)
Lemma forward_after_connect_error (conn : Conn) (remoteAddr : string)
  (addrs : list string) (configs : list ClientConfig) (s s1 : State)
  (x : option Client) (e : error) (t1 : list Event) :
  connect net addrs configs s = (Returned (x, Some e), s1, t1) ->
  forward net conn remoteAddr addrs configs s =
  (Returned tt, s1, t1 ++ [EvConnClose conn]).
Proof.
  intros Hconnect. unfold forward, defer.
  unfold bind. rewrite Hconnect. unfold ret, emit. simpl.
  now rewrite app_nil_r.
Qed.


End Forwarding.

(** A probe that failed, or no client to probe: no dial and no handshake
    was made. *)
Lemma clientAlive_false_reads (net : Network) (cl : option Client)
  (cleanup : option sshCleanup) (s s' : State) (t : list Event) :
  clientAlive net cl cleanup s = (Returned false, s', t) ->
  dialled t = [] /\ hopErrors t = [].
Proof.
  intros Hrun.
  destruct (clientAlive_run net cl cleanup s)
    as (r & s1 & t1 & Hrun' & _ & _ & _ & _ & Hr).
  rewrite Hrun in Hrun'. inversion Hrun'; subst r s1 t1.
  destruct cl as [c|].
  - destruct Hr as (e & closer & tc & _ & -> & Hall & _).
    destruct (closes_only tc Hall) as (Hd & He & _).
    autorewrite with reads. rewrite Hd, He.
    destruct (hd_error (closeErrors tc)); split; reflexivity.
  - destruct Hr as (-> & _). split; reflexivity.
Qed.

(** C6 (amended). When [connect] fails in the first step of [forward] and
    the lists fit, with at least one hop, there is a hop [k + 1] such that
    the trace of [connect] is [before], then the dial or handshake [fe],
    then the log line of [newClient], then closes [tc] and [Unlock]:
    - [fe] is a dial or handshake for the address of hop [k + 1] and
      returned the error of [connect]; no dial or handshake failed before
      it, and the hops dialled up to it are the hops 1 to [k + 1], so hop
      [k + 1] is the hop that failed;
    - the log line that follows [fe] has the address of that same hop and
      the error;
    - the local connection is closed after all this, and closing it is the
      last thing [forward] does.
    (An error that [newClient] returns without a dial, and the errors of
    the closes after a failed build, are in no log line.) *)
Theorem forward_connect_failure_logged (net : Network) (conn : Conn)
  (remoteAddr : string) (addrs : list string) (configs : list ClientConfig)
  (s s1 : State) (x : option Client) (e : error) (t1 : list Event) :
  addrs <> [] ->
  List.length addrs = List.length configs ->
  connect net addrs configs s = (Returned (x, Some e), s1, t1) ->
  forward net conn remoteAddr addrs configs s =
    (Returned tt, s1, t1 ++ [EvConnClose conn]) /\
  connCloses t1 = [] /\ remoteDials t1 = [] /\
  hopErrors t1 = [e] /\
  exists k before fe tc,
    k < List.length addrs /\
    t1 = before
         ++ [fe; EvLog (LogFailedConnect (nth k addrs EmptyString) e)]
         ++ tc ++ [EvUnlock] /\
    hopFailure (nth k addrs EmptyString) e fe /\
    dialled (before ++ [fe]) = firstn (S k) addrs /\
    hopErrors before = [] /\
    forallb isClose tc = true /\
    In (nth k addrs EmptyString) addrs.
Proof.
  intros Hne Hlen Hconnect.
  split; [now apply (forward_after_connect_error net conn remoteAddr addrs
                       configs s s1 x e t1)|].
  destruct (connect_run net addrs configs s)
    as (r & s' & t & Hrun & Hm & _ & _ & Hr).
  rewrite Hconnect in Hrun. inversion Hrun; subst r s' t.
  destruct (manager_only t1 Hm) as (Hrd & _ & Hcc & _).
  split; [exact Hcc|]. split; [exact Hrd|].
  destruct Hr as (_ & _ & _ & s0 & t0 & s2 & t2 & Halive & Hnew & Ht & _).
  destruct (clientAlive_false_reads net _ _ _ _ _ Halive) as (Hd0 & He0).
  destruct (newClient_run net addrs configs s0)
    as (nc & ncl & err & s3 & t3 & Hnew' & _ & _ & Hr).
  rewrite Hnew in Hnew'. inversion Hnew'; subst nc ncl err s3 t3.
  destruct Hr as (_ & _ & [([H|H] & _) | (_ & k & Hk & Hfail)]);
    [congruence | congruence |].
  destruct (failedAt_reads _ _ _ _ _ Hfail) as (_ & _ & _ & Herr & _).
  split.
  { rewrite Ht. autorewrite with reads. rewrite He0, Herr. reflexivity. }
  destruct Hfail
    as (tb & fe & tc & Ht2 & Hfe & Hdial & _ & _ & Herrb & Htc & _).
  exists k, ([EvCall Fconnect; EvLock] ++ t0 ++ tb), fe, tc.
  split; [exact Hk|]. split.
  { rewrite Ht, Ht2. rewrite <- !app_assoc. reflexivity. }
  split; [exact Hfe|]. split.
  { rewrite dialled_app in Hdial. rewrite <- !app_assoc.
    autorewrite with reads. rewrite Hd0, Hdial. reflexivity. }
  split.
  { autorewrite with reads. rewrite He0, Herrb. reflexivity. }
  split; [exact Htc|]. now apply nth_In.
Qed.

(** The theorem on three hops where the handshake with the third fails. *)
Lemma forward_connect_failure_logged_witness :
  let addrs := ["a:22"; "b:22"; "c:22"] in
  let configs := [cfg "u"; cfg "v"; cfg "w"] in
  let net := handshakeFails "c:22" in
  let e := "ssh: handshake failed: EOF" in
  let run := connect net addrs configs initialState in
  fst (fst run) = Returned (None, Some e) /\
  forward net 5 "internal.lan:80" addrs configs initialState =
    (Returned tt, snd (fst run), snd run ++ [EvConnClose 5]) /\
  connCloses (snd run) = [] /\ remoteDials (snd run) = [] /\
  hopErrors (snd run) = [e] /\
  exists k before fe tc,
    k < List.length addrs /\
    snd run = before
              ++ [fe; EvLog (LogFailedConnect (nth k addrs EmptyString) e)]
              ++ tc ++ [EvUnlock] /\
    hopFailure (nth k addrs EmptyString) e fe /\
    dialled (before ++ [fe]) = firstn (S k) addrs /\
    hopErrors before = [] /\
    forallb isClose tc = true /\
    In (nth k addrs EmptyString) addrs.
Proof.
  intros addrs configs net e run. split.
  - vm_compute. reflexivity.
  - apply (forward_connect_failure_logged net 5 "internal.lan:80" addrs configs
             initialState (snd (fst run)) None e (snd run)).
    + discriminate.
    + reflexivity.
    + vm_compute. reflexivity.
Defined.

(** C6, as stated, fails.  With no address [connect] fails in the first
    step of [forward], and [forward] closes the local connection without
    any log line.  And when the handshake with the second of two hops fails
    and the close of the first hop fails too, the error of the close is in
    no log line. *)
Lemma forward_errors_without_log_line :
  (let run := forward quietNet 5 "internal.lan:80" [] [] initialState in
   fst (fst (connect quietNet [] [] initialState))
     = Returned (None, Some "no addresses provided") /\
   snd run = [EvCall Fconnect; EvLock; EvUnlock; EvConnClose 5] /\
   logged (snd run) = []) /\
  (let run := forward (handshakeFails "b:22") 5 "internal.lan:80"
                ["a:22"; "b:22"] [cfg "u"; cfg "v"] initialState in
   closeErrors (snd run) = ["use of closed network connection"] /\
   loggedErrors (snd run) = ["ssh: handshake failed: EOF"] /\
   ~ In "use of closed network connection" (loggedErrors (snd run))).
Proof.
  vm_compute. repeat split; try reflexivity.
  intros [H|[]]. discriminate.
Qed.



Example forward_retry_trace :
  forward remoteUnreachable 5 "internal.lan:80" ["a:22"] [cfg "u"]
    initialState =
  (Returned tt,
   {| client := Some 1; clientCloser := Some {| clients := [1] |};
      counter := 0; nextClient := 2; tick := 6 |},
   [EvCall Fconnect; EvLock; EvLog (LogEstablishing "a:22");
    EvNetDial "a:22" 0 None; EvHandshake "a:22" None; EvNewClient 0;
    EvLog (LogConnectedFinal "a:22"); EvUnlock;
    EvForwardDial 0 "internal.lan:80"
      (Some "ssh: rejected: connect failed (Connection refused)");
    EvLog (LogFailedDialReconnect "internal.lan:80"
             "ssh: rejected: connect failed (Connection refused)");
    EvCall Freconnect; EvLog (LogEstablishing "a:22");
    EvNetDial "a:22" 0 None; EvHandshake "a:22" None; EvNewClient 1;
    EvLog (LogConnectedFinal "a:22"); EvLock; EvUnlock;
    EvForwardDial 1 "internal.lan:80"
      (Some "ssh: rejected: connect failed (Connection refused)");
    EvLog (LogFailedDialFinal "internal.lan:80"
             "ssh: rejected: connect failed (Connection refused)");
    EvConnClose 5]).
Proof. vm_compute. reflexivity. Qed.

(** * Further properties *)

(** ** Splitting and joining *)

Lemma HasPrefix_drop (s sep : string) :
  strings.HasPrefix s sep = true ->
  s = (sep ++ strings.drop (String.length sep) s)%string.
Proof.
  revert s. induction sep as [|p sep IH]; intros s H.
  - reflexivity.
  - destruct s as [|c s]; [discriminate|].
    simpl in H. apply andb_true_iff in H as [Hc Hs].
    apply Ascii.eqb_eq in Hc. subst p. simpl. f_equal. now apply IH.
Qed.

(** A cut splits the string around the separator. *)
Lemma cutFirst_parts (s sep before after : string) :
  strings.cutFirst s sep = Some (before, after) ->
  s = (before ++ sep ++ after)%string.
Proof.
  revert before after. induction s as [|c s IH]; intros before after H.
  - destruct sep; simpl in H; [|discriminate].
    inversion H; subst. reflexivity.
  - change (strings.cutFirst (String c s) sep)
      with (if strings.HasPrefix (String c s) sep
            then Some (EmptyString,
                       strings.drop (String.length sep) (String c s))
            else match strings.cutFirst s sep with
                 | Some (b, a) => Some (String c b, a)
                 | None => None
                 end) in H.
    destruct (strings.HasPrefix (String c s) sep) eqn:Hp.
    + inversion H; subst. now apply HasPrefix_drop in Hp.
    + destruct (strings.cutFirst s sep) as [[b a]|] eqn:Hcut; [|discriminate].
      inversion H; subst. simpl. f_equal. now apply IH.
Qed.

(** The cut at a one-byte separator: there is none when the byte is not in
    the string, and else the part before it is free of the byte. *)
Lemma cutFirst_byte (s : string) (c : ascii) :
  match strings.cutFirst s (String c EmptyString) with
  | None => strings.ContainsRune s c = false
  | Some (before, after) =>
      s = (before ++ String c after)%string /\
      strings.ContainsRune before c = false
  end.
Proof.
  induction s as [|x s IH].
  - reflexivity.
  - change (strings.cutFirst (String x s) (String c EmptyString))
      with (if strings.HasPrefix (String x s) (String c EmptyString)
            then Some (EmptyString, strings.drop 1 (String x s))
            else match strings.cutFirst s (String c EmptyString) with
                 | Some (b, a) => Some (String x b, a)
                 | None => None
                 end).
    rewrite HasPrefix_single. simpl.
    destruct (Ascii.eqb x c) eqn:Ex.
    + apply Ascii.eqb_eq in Ex. subst x. split; reflexivity.
    + destruct (strings.cutFirst s (String c EmptyString)) as [[b a]|].
      * destruct IH as [Hs Hb]. simpl. rewrite Ex, Hb, Hs. split; reflexivity.
      * simpl. exact IH.
Qed.

Lemma ContainsRune_app (s t : string) (c : ascii) :
  strings.ContainsRune (s ++ t) c
  = strings.ContainsRune s c || strings.ContainsRune t c.
Proof.
  induction s as [|x s IH]; simpl; [reflexivity|].
  now rewrite IH, orb_assoc.
Qed.

Lemma cutFirst_byte_app (before after : string) (c : ascii) :
  strings.ContainsRune before c = false ->
  strings.cutFirst (before ++ String c after) (String c EmptyString)
  = Some (before, after).
Proof.
  induction before as [|x b IH]; intros H.
  - simpl. rewrite Ascii.eqb_refl. simpl.
    destruct after; reflexivity.
  - simpl in H. apply orb_false_iff in H as [Hx Hb].
    change (strings.cutFirst (String x b ++ String c after)
              (String c EmptyString))
      with (if strings.HasPrefix (String x (b ++ String c after))
                 (String c EmptyString)
            then Some (EmptyString,
                       strings.drop 1 (String x (b ++ String c after)))
            else match strings.cutFirst (b ++ String c after)
                         (String c EmptyString) with
                 | Some (b', a) => Some (String x b', a)
                 | None => None
                 end).
    rewrite HasPrefix_single, Hx, (IH Hb). reflexivity.
Qed.

Lemma length_append (s t : string) :
  String.length (s ++ t) = String.length s + String.length t.
Proof. induction s as [|x s IH]; simpl; [reflexivity | now rewrite IH]. Qed.

(** With enough fuel the parts of a split at a byte are free of the byte. *)
Lemma splitAll_clean (c : ascii) (fuel : nat) :
  forall s,
    String.length s <= fuel ->
    Forall (fun part => strings.ContainsRune part c = false)
           (strings.splitAll fuel s (String c EmptyString)).
Proof.
  induction fuel as [|fuel IH]; intros s Hlen.
  - destruct s; [|simpl in Hlen; lia]. repeat constructor.
  - simpl. pose proof (cutFirst_byte s c) as Hcut.
    destruct (strings.cutFirst s (String c EmptyString)) as [[b a]|].
    + destruct Hcut as [Hs Hb]. constructor; [exact Hb|].
      apply IH. subst s. rewrite length_append in Hlen. simpl in Hlen. lia.
    + repeat constructor. exact Hcut.
Qed.

Lemma splitAll_join (sep : string) (fuel : nat) :
  forall s, strings.Join (strings.splitAll fuel s sep) sep = s.
Proof.
  unfold strings.Join.
  induction fuel as [|fuel IH]; intros s; [reflexivity|].
  simpl. destruct (strings.cutFirst s sep) as [[b a]|] eqn:Hcut;
    [|reflexivity].
  apply cutFirst_parts in Hcut.
  specialize (IH a).
  destruct (strings.splitAll fuel a sep) as [|p ps] eqn:Hsplit.
  - destruct fuel; simpl in Hsplit; [discriminate|].
    destruct (strings.cutFirst a sep) as [[? ?]|]; discriminate.
  - simpl in *. rewrite IH. now symmetry.
Qed.

Lemma splitAll_of_join (c : ascii) (parts : list string) :
  parts <> [] ->
  Forall (fun part => strings.ContainsRune part c = false) parts ->
  forall fuel,
    String.length (strings.Join parts (String c EmptyString)) <= fuel ->
    strings.splitAll fuel (strings.Join parts (String c EmptyString))
      (String c EmptyString) = parts.
Proof.
  unfold strings.Join.
  induction parts as [|p ps IH]; intros Hne Hall fuel Hlen; [congruence|].
  inversion Hall as [|? ? Hp Hps]; subst.
  destruct ps as [|q qs].
  - simpl in *. pose proof (cutFirst_byte p c) as Hcut.
    destruct fuel; [reflexivity|]. simpl.
    destruct (strings.cutFirst p (String c EmptyString)) as [[b a]|];
      [|reflexivity].
    destruct Hcut as [Hs _]. subst p.
    rewrite ContainsRune_app in Hp. simpl in Hp.
    rewrite Ascii.eqb_refl in Hp. simpl in Hp.
    rewrite orb_true_r in Hp. discriminate.
  - change (String.concat (String c EmptyString) (p :: q :: qs))
      with (p ++ String c (String.concat (String c EmptyString)
                                         (q :: qs)))%string in *.
    specialize (IH ltac:(discriminate) Hps).
    set (rest := String.concat (String c EmptyString) (q :: qs)) in *.
    rewrite length_append in Hlen.
    change (String.length (String c rest)) with (S (String.length rest))
      in Hlen.
    destruct fuel as [|fuel]; [lia|].
    simpl strings.splitAll. rewrite (cutFirst_byte_app p rest c Hp).
    f_equal. apply IH. lia.
Qed.

Lemma Split_nonempty (s sep : string) : strings.Split s sep <> [].
Proof.
  unfold strings.Split. destruct (String.length s); simpl; [discriminate|].
  destruct (strings.cutFirst s sep) as [[? ?]|]; discriminate.
Qed.

Lemma Split_clean (s : string) (c : ascii) :
  Forall (fun part => strings.ContainsRune part c = false)
         (strings.Split s (String c EmptyString)).
Proof. apply splitAll_clean. lia. Qed.

(** ** The host list *)

(** The entries, users and addresses of an accepted host list, side by
    side: every entry is parsed on its own. *)
Lemma splitHostSlice_entries (hostSlice users addrs : list string) :
  splitHostSlice hostSlice = inl (users, addrs) ->
  List.length users = List.length hostSlice /\
  List.length addrs = List.length hostSlice /\
  Forall (fun '(host, (user, addr)) => splitSingleHost host = inl (user, addr))
         (combine hostSlice (combine users addrs)).
Proof.
  revert users addrs.
  induction hostSlice as [|host rest IH]; intros users addrs H; simpl in H.
  - inversion H. repeat split. constructor.
  - destruct (splitSingleHost host) as [[user addr]|err] eqn:Ehost;
      [|discriminate].
    destruct (splitHostSlice rest) as [[users' addrs']|err] eqn:Erest;
      [|discriminate].
    inversion H; subst users addrs.
    destruct (IH users' addrs' eq_refl) as (Hu & Ha & Hall).
    simpl. repeat split; auto.
Qed.

Lemma splitHostSlice_error (hostSlice : list string) (e : error) :
  splitHostSlice hostSlice = inr e <->
  e = "host does not contain a username" /\
  Exists (fun host => strings.ContainsRune host "@"%char = false) hostSlice.
Proof.
  induction hostSlice as [|host rest IH]; simpl.
  - split; [discriminate|]. intros [_ H]. inversion H.
  - rewrite Exists_cons. unfold splitSingleHost at 1.
    destruct (strings.ContainsRune host "@"%char) eqn:Hat; simpl.
    + destruct (splitHostSlice rest) as [[users addrs]|err].
      * split; [discriminate|]. intros [He [Hh|Hr]]; [discriminate|].
        destruct IH as [_ IH]. discriminate (IH (conj He Hr)).
      * split.
        -- intros H. injection H as ->.
           destruct IH as [IH _]. destruct (IH eq_refl) as [He Hr].
           split; [exact He | now right].
        -- intros [He [Hh|Hr]]; [discriminate|].
           destruct IH as [_ IH]. exact (IH (conj He Hr)).
    + split.
      * intros H. injection H as <-. split; [reflexivity | now left].
      * intros [-> _]. reflexivity.
Qed.

(** What [splitHosts] returns for a host list that it accepts. *)
Lemma splitHosts_accepted (hosts : string) (users addrs : list string) :
  splitHosts hosts = inl (users, addrs) ->
  users <> [] /\ addrs <> [] /\
  List.length users = List.length (strings.Split hosts ",") /\
  List.length addrs = List.length users /\
  Forall (fun '(host, (user, addr)) => splitSingleHost host = inl (user, addr))
         (combine (strings.Split hosts ",") (combine users addrs)) /\
  Forall (fun user => strings.ContainsRune user "@"%char = false /\
                      strings.ContainsRune user ","%char = false) users /\
  Forall (fun addr => strings.ContainsRune addr ":"%char = true /\
                      strings.ContainsRune addr ","%char = false) addrs.
Proof.
  unfold splitHosts. intros H.
  pose proof (Split_nonempty hosts ",") as Hne.
  pose proof (Split_clean hosts ","%char) as Hclean.
  destruct (splitHostSlice_entries _ _ _ H) as (Hu & Ha & Hall).
  revert Hne Hclean Hu Ha Hall. clear H.
  generalize (strings.Split hosts ","). intros hs Hne Hclean Hu Ha Hall.
  assert (Hun : users <> []).
  { intros ->. destruct hs; [congruence | discriminate]. }
  assert (Han : addrs <> []).
  { intros ->. destruct hs; [congruence | discriminate]. }
  split; [exact Hun|]. split; [exact Han|].
  split; [exact Hu|]. split; [congruence|]. split; [exact Hall|].
  clear Hne Hun Han.
  revert users addrs Hu Ha Hall.
  induction hs as [|h hs IH]; intros users addrs Hu Ha Hall.
  - destruct users; [|discriminate]. destruct addrs; [|discriminate].
    split; constructor.
  - destruct users as [|u users]; [discriminate|].
    destruct addrs as [|a addrs]; [discriminate|].
    simpl in Hu, Ha, Hall.
    inversion Hall as [|? ? Hh Hrest]; subst.
    inversion Hclean as [|? ? Hc Hcs]; subst.
    destruct (IH Hcs users addrs) as [IHu IHa]; auto.
    destruct (splitSingleHost_cut h u a Hh)
      as (rest & Hhost & Hnoat & Haddr & Hcolon).
    subst h. rewrite !ContainsRune_app in Hc. simpl in Hc.
    apply orb_false_iff in Hc as [Hcu Hcr].
    split; constructor; auto.
    split; [exact Hcolon|].
    destruct (strings.ContainsRune rest ":"%char); subst a; [exact Hcr|].
    rewrite ContainsRune_app, Hcr. reflexivity.
Qed.

(** X1. When [splitHosts] accepts a host list, it returns as many users as
    addresses, one of each per comma-separated entry and at least one;
    entry, user and address at the same position are related by
    [splitSingleHost]; no user has an ['@'] or a [','], and every address
    has a [':'] and no [',']. *)
Theorem splitHosts_one_hop_per_entry (hosts : string)
  (users addrs : list string) :
  splitHosts hosts = inl (users, addrs) ->
  users <> [] /\ addrs <> [] /\
  List.length users = List.length (strings.Split hosts ",") /\
  List.length addrs = List.length users /\
  Forall (fun '(host, (user, addr)) => splitSingleHost host = inl (user, addr))
         (combine (strings.Split hosts ",") (combine users addrs)) /\
  Forall (fun user => strings.ContainsRune user "@"%char = false /\
                      strings.ContainsRune user ","%char = false) users /\
  Forall (fun addr => strings.ContainsRune addr ":"%char = true /\
                      strings.ContainsRune addr ","%char = false) addrs.
Proof. exact (splitHosts_accepted hosts users addrs). Qed.

Lemma splitHosts_one_hop_per_entry_witness :
  splitHosts "a@gate.example.org,b@10.0.0.2:2222"
    = inl (["a"; "b"], ["gate.example.org:22"; "10.0.0.2:2222"]) /\
  List.length ["a"; "b"]
    = List.length (strings.Split "a@gate.example.org,b@10.0.0.2:2222" ",") /\
  Forall (fun addr => strings.ContainsRune addr ":"%char = true /\
                      strings.ContainsRune addr ","%char = false)
         ["gate.example.org:22"; "10.0.0.2:2222"].
Proof.
  split; [reflexivity|].
  destruct (splitHosts_one_hop_per_entry "a@gate.example.org,b@10.0.0.2:2222"
              ["a"; "b"] ["gate.example.org:22"; "10.0.0.2:2222"] eq_refl)
    as (_ & _ & Hlen & _ & _ & _ & Haddrs).
  split; [exact Hlen | exact Haddrs].
Defined.

(** X2. [splitHosts] fails exactly when one of the comma-separated entries
    has no ['@'], and the error is then "host does not contain a username";
    so the empty host list, and a host list with an empty entry (a comma at
    the start or the end, or two in a row), is refused. *)
Theorem splitHosts_fails_iff (hosts : string) (e : error) :
  splitHosts hosts = inr e <->
  e = "host does not contain a username" /\
  Exists (fun host => strings.ContainsRune host "@"%char = false)
         (strings.Split hosts ",").
Proof. unfold splitHosts. apply splitHostSlice_error. Qed.

Example splitHosts_empty :
  splitHosts EmptyString = inr "host does not contain a username".
Proof. reflexivity. Qed.

Example splitHosts_trailing_comma :
  splitHosts "a@b," = inr "host does not contain a username".
Proof. reflexivity. Qed.

(** The text of a hop: [user@addr]. *)
Lemma splitSingleHost_printed (user addr : string) :
  strings.ContainsRune user "@"%char = false ->
  strings.ContainsRune addr ":"%char = true ->
  splitSingleHost (user ++ "@" ++ addr) = inl (user, addr).
Proof.
  intros Hu Ha. unfold splitSingleHost.
  rewrite ContainsRune_app. simpl. rewrite orb_true_r. simpl.
  unfold strings.SplitN2.
  rewrite (cutFirst_byte_app user addr "@"%char Hu). simpl.
  now rewrite (Contains_single addr ":"%char), Ha.
Qed.

(** X3. Writing hops as [user@addr], joined with commas, and parsing the
    text with [splitHosts] gives the hops back, for at least one hop, users
    without ['@'] and [','], and addresses with a [':'] and without
    [',']. *)
Theorem splitHosts_of_printed (hops : list (string * string)) :
  hops <> [] ->
  Forall (fun '(user, addr) =>
            strings.ContainsRune user "@"%char = false /\
            strings.ContainsRune user ","%char = false /\
            strings.ContainsRune addr ":"%char = true /\
            strings.ContainsRune addr ","%char = false) hops ->
  splitHosts
    (strings.Join (map (fun '(user, addr) => (user ++ "@" ++ addr)%string) hops)
                  ",")
  = inl (map fst hops, map snd hops).
Proof.
  intros Hne Hall. unfold splitHosts, strings.Split.
  rewrite (splitAll_of_join ","%char).
  - clear Hne. induction hops as [|[user addr] hops IH]; [reflexivity|].
    inversion Hall as [|? ? Hh Hrest]; subst.
    destruct Hh as (Hu & _ & Ha & _).
    cbn [map fst snd splitHostSlice].
    rewrite (splitSingleHost_printed user addr Hu Ha).
    now rewrite (IH Hrest).
  - destruct hops; [congruence | discriminate].
  - clear Hne. induction Hall as [|[user addr] hops Hh _ IH];
      cbn [map]; constructor; auto.
    destruct Hh as (_ & Hu & _ & Ha).
    rewrite !ContainsRune_app. simpl. now rewrite Hu, Ha.
  - lia.
Qed.

Lemma splitHosts_of_printed_witness :
  splitHosts
    (strings.Join
       (map (fun '(user, addr) => (user ++ "@" ++ addr)%string)
            [("root", "gate:22"); ("tunnel", "inner.lan:2222")]) ",")
  = inl (map fst [("root", "gate:22"); ("tunnel", "inner.lan:2222")],
         map snd [("root", "gate:22"); ("tunnel", "inner.lan:2222")]).
Proof.
  apply (splitHosts_of_printed
           [("root", "gate:22"); ("tunnel", "inner.lan:2222")]).
  - discriminate.
  - repeat constructor.
Defined.

(** X4. The result of [splitSingleHost] is in its final form: the user has
    no ['@'], and parsing [user@addr] again returns the same user and the
    same address. *)
Theorem splitSingleHost_idempotent (host user addr : string) :
  splitSingleHost host = inl (user, addr) ->
  strings.ContainsRune user "@"%char = false /\
  splitSingleHost (user ++ "@" ++ addr) = inl (user, addr).
Proof.
  intros H.
  destruct (splitSingleHost_cut host user addr H) as (_ & _ & Hu & _ & Ha).
  split; [exact Hu|]. now apply splitSingleHost_printed.
Qed.

Lemma splitSingleHost_idempotent_witness :
  strings.ContainsRune "username" "@"%char = false /\
  splitSingleHost ("username" ++ "@" ++ "server.com:22")
    = inl ("username", "server.com:22").
Proof.
  apply (splitSingleHost_idempotent "username@server.com").
  reflexivity.
Defined.

Lemma splitHosts_fails_iff_witness :
  splitHosts "a@b," = inr "host does not contain a username".
Proof.
  apply (proj2 (splitHosts_fails_iff "a@b,"
                  "host does not contain a username")).
  split; [reflexivity|].
  apply Exists_cons_tl, Exists_cons_hd. reflexivity.
Defined.

(** ** A chain that is built *)

Lemma hopDials_app (t1 t2 : list Event) :
  hopDials (t1 ++ t2) = hopDials t1 ++ hopDials t2.
Proof. apply pick_app. Qed.

Lemma handshakes_app (t1 t2 : list Event) :
  handshakes (t1 ++ t2) = handshakes t1 ++ handshakes t2.
Proof. apply pick_app. Qed.

Lemma dialTimeouts_app (t1 t2 : list Event) :
  dialTimeouts (t1 ++ t2) = dialTimeouts t1 ++ dialTimeouts t2.
Proof. apply pick_app. Qed.

Lemma locks_app (t1 t2 : list Event) :
  locks (t1 ++ t2) = locks t1 ++ locks t2.
Proof. apply pick_app. Qed.

#[local] Hint Rewrite hopDials_app handshakes_app dialTimeouts_app locks_app
  : reads.

Section Chain.

Variable net : Network.

(** A hop that is established: one dial, through the proxy when there is
    one and else direct with the timeout of the config, and one
    handshake. *)
Lemma connectHop_established (proxy : option Client) (addr : string)
  (config : ClientConfig) (s s' : State) (c : Client) (t : list Event) :
  connectHop net proxy addr config s = (Returned (inl c), s', t) ->
  hopDials t = [(proxy, addr)] /\ handshakes t = [addr] /\
  dialTimeouts t = match proxy with
                   | None => [Timeout config]
                   | Some _ => []
                   end /\
  established t = [c] /\ tick s' = S (S (tick s)).
Proof.
  unfold connectHop, bind, interact, ssh_NewClient, ret.
  destruct proxy as [p|]; simpl.
  - destruct (client_Dial net (tick s) p addr); simpl; [discriminate|].
    destruct (ssh_NewClientConn net (S (tick s)) addr config); simpl;
      [discriminate|].
    intros H. inversion H; subst. repeat split.
  - destruct (net_DialTimeout net (tick s) addr (Timeout config)); simpl;
      [discriminate|].
    destruct (ssh_NewClientConn net (S (tick s)) addr config); simpl;
      [discriminate|].
    intros H. inversion H; subst. repeat split.
Qed.

Lemma hopLoop_chain (configs : list ClientConfig) (rest : list string) :
  forall i client0 c s client' c' s' t,
    hopLoop net configs i rest client0 c s
      = (Returned (inr (client', c')), s', t) ->
    hopDials t = combine (client0 :: map Some (established t)) rest /\
    handshakes t = rest /\
    dialTimeouts t = match client0, rest with
                     | None, _ :: _ => map Timeout (firstn 1 (skipn i configs))
                     | _, _ => []
                     end /\
    tick s' = tick s + 2 * List.length rest.
Proof.
  induction rest as [|addr rest' IH]; intros i client0 c s client' c' s' t H.
  - simpl in H. unfold ret in H. inversion H; subst client' c' s' t.
    destruct client0; repeat split; simpl; lia.
  - simpl in H. unfold index in H.
    destruct (nth_error configs i) as [config|] eqn:Econf.
    2:{ unfold bind, panic in H. discriminate. }
    unfold bind at 1 in H. unfold ret at 1 in H.
    unfold bind at 1 in H. unfold log at 1, emit at 1 in H.
    unfold bind at 1 in H.
    destruct (connectHop net client0 addr config s) as [[r s1] t1] eqn:Hhop.
    destruct r as [[cl|e]|]; [| |discriminate].
    + destruct (hopLoop net configs (S i) rest' (Some cl)
                  {| clients := clients c ++ [cl] |} s1)
        as [[r2 s2] t2] eqn:Hloop.
      inversion H; subst r2 s2 t. clear H.
      destruct (connectHop_established _ _ _ _ _ _ _ Hhop)
        as (Hd1 & Hh1 & Hz1 & He1 & Ht1).
      destruct (IH _ _ _ _ _ _ _ _ Hloop) as (Hd2 & Hh2 & Hz2 & Ht2).
      change (EvLog (LogEstablishing addr) :: t1 ++ t2)
        with ([EvLog (LogEstablishing addr)] ++ t1 ++ t2).
      autorewrite with reads.
      rewrite Hd1, Hh1, Hz1, He1, Hd2, Hh2, Hz2.
      repeat split.
      * destruct client0; simpl; [reflexivity|].
        clear - Econf. revert i Econf.
        induction configs as [|x xs IHc]; intros [|i] E; simpl in *;
          try discriminate.
        -- now inversion E.
        -- now apply IHc.
      * simpl List.length. lia.
    + unfold bind at 1 in H. unfold log at 1, emit at 1 in H.
      unfold bind at 1 in H.
      destruct (Close_run net c s1) as (s2 & tc & Hclose & _).
      rewrite Hclose in H. unfold ret in H. discriminate.
Qed.

(** What a build that succeeds did. *)
Lemma newClient_chain (addrs : list string) (configs : list ClientConfig)
  (s s' : State) (nc : option Client) (ncl : option sshCleanup)
  (t : list Event) :
  newClient net addrs configs s = (Returned (nc, ncl, None), s', t) ->
  addrs <> [] /\ List.length configs = List.length addrs /\
  List.length (established t) = List.length addrs /\
  nc = Some (last (established t) 0) /\
  ncl = Some {| clients := established t |} /\
  hopDials t = combine (None :: map Some (established t)) addrs /\
  handshakes t = addrs /\
  dialTimeouts t = map Timeout (firstn 1 configs) /\
  closed t = [] /\ hopErrors t = [] /\
  tick s' = tick s + 2 * List.length addrs /\
  sameVars s s'.
Proof.
  intros Hrun.
  destruct (newClient_run net addrs configs s)
    as (nc' & ncl' & err & s1 & t1 & Hrun' & Hv & _ & Hr).
  rewrite Hrun in Hrun'. inversion Hrun'; subst nc' ncl' err s1 t1.
  destruct Hr as (Hnc & Hncl & Hlen & Hne & _ & Hclosed & Herr).
  revert Hrun. unfold newClient.
  destruct (List.length addrs =? List.length configs)%nat eqn:Elen; simpl;
    [|unfold ret; discriminate].
  apply Nat.eqb_eq in Elen.
  destruct (List.length addrs =? 0)%nat eqn:Ezero; [unfold ret; discriminate|].
  unfold bind at 1.
  destruct (hopLoop net configs 0 addrs None {| clients := [] |} s)
    as [[r s1] t1] eqn:Hloop.
  destruct r as [[[[x y] z]|[client' c']]|]; [| |discriminate].
  - destruct (hopLoop_run net configs addrs 0 None {| clients := [] |} s)
      as (r2 & s2 & t2 & Hloop2 & _ & _ & Hr2); [simpl; lia|].
    rewrite Hloop in Hloop2. inversion Hloop2; subst r2 s2 t2.
    destruct Hr2 as (_ & _ & k & e & -> & _).
    unfold ret. discriminate.
  - unfold bind, log, emit, ret. intros H. inversion H; subst.
    destruct (hopLoop_chain _ _ _ _ _ _ _ _ _ _ Hloop)
      as (Hd & Hh & Hz & Ht).
    autorewrite with reads in *. simpl in *.
    rewrite !app_nil_r in *.
    destruct addrs as [|a addrs']; [congruence|].
    repeat split; auto; apply Hv.
Qed.

End Chain.

(** X5. A build that succeeds made one dial and one handshake per
    address, in the order of the addresses and nothing else on the network:
    the first dial is direct, with the timeout of the first config, and
    every later hop is dialled through the client of the hop before it.  It
    returns the client of the last hop and a closer that holds the clients
    of all hops in dial order, it closed nothing, and it left [client],
    [clientCloser] and [counter] alone. *)
Theorem newClient_builds_chain (net : Network) (addrs : list string)
  (configs : list ClientConfig) (s s' : State) (nc : option Client)
  (ncl : option sshCleanup) (t : list Event) :
  newClient net addrs configs s = (Returned (nc, ncl, None), s', t) ->
  addrs <> [] /\ List.length configs = List.length addrs /\
  List.length (established t) = List.length addrs /\
  nc = Some (last (established t) 0) /\
  ncl = Some {| clients := established t |} /\
  hopDials t = combine (None :: map Some (established t)) addrs /\
  handshakes t = addrs /\
  dialTimeouts t = map Timeout (firstn 1 configs) /\
  closed t = [] /\ hopErrors t = [] /\
  tick s' = tick s + 2 * List.length addrs /\
  sameVars s s'.
Proof. exact (newClient_chain net addrs configs s s' nc ncl t). Qed.

Lemma newClient_builds_chain_witness :
  let run := newClient quietNet ["a:22"; "b:22"; "c:22"]
               [cfg "u"; cfg "v"; cfg "w"] initialState in
  fst (fst run) = Returned (Some 2, Some {| clients := [0; 1; 2] |}, None) /\
  hopDials (snd run) = [(None, "a:22"); (Some 0, "b:22"); (Some 1, "c:22")] /\
  handshakes (snd run) = ["a:22"; "b:22"; "c:22"].
Proof.
  intros run.
  destruct (newClient_builds_chain quietNet ["a:22"; "b:22"; "c:22"]
              [cfg "u"; cfg "v"; cfg "w"] initialState (snd (fst run))
              (Some 2) (Some {| clients := [0; 1; 2] |}) (snd run) eq_refl)
    as (_ & _ & _ & _ & _ & Hd & Hh & _).
  split; [reflexivity|]. split; [exact Hd | exact Hh].
Defined.

(** X6. The closer that a successful build returns, invoked in any later
    state and on any network, returns and closes exactly the clients that
    the build established, one per address, the last hop first. *)
Theorem newClient_closer_closes_all_hops (net net' : Network)
  (addrs : list string) (configs : list ClientConfig) (s s1 s2 : State)
  (nc : option Client) (closer : sshCleanup) (t1 : list Event) :
  newClient net addrs configs s = (Returned (nc, Some closer, None), s1, t1) ->
  exists s3 t2,
    Close net' closer s2 = (Returned (hd_error (closeErrors t2)), s3, t2) /\
    closed t2 = rev (established t1) /\
    List.length t2 = List.length addrs /\
    forallb isClose t2 = true.
Proof.
  intros Hrun.
  destruct (newClient_chain net _ _ _ _ _ _ _ Hrun)
    as (_ & _ & Hlen & _ & Hcl & _).
  inversion Hcl; subst closer.
  destruct (Close_run net' {| clients := established t1 |} s2)
    as (s3 & t2 & Hclose & Hclosed & Hall & _).
  exists s3, t2. repeat split; auto.
  rewrite <- (closes_length t2 Hall), Hclosed, length_rev. exact Hlen.
Qed.

Lemma newClient_closer_closes_all_hops_witness :
  let run := newClient quietNet ["a:22"; "b:22"] [cfg "u"; cfg "v"]
               initialState in
  exists s3 t2,
    Close networkDown {| clients := [0; 1] |} (snd (fst run))
      = (Returned (hd_error (closeErrors t2)), s3, t2) /\
    closed t2 = rev (established (snd run)) /\
    List.length t2 = 2 /\
    forallb isClose t2 = true.
Proof.
  intros run.
  apply (newClient_closer_closes_all_hops quietNet networkDown
           ["a:22"; "b:22"] [cfg "u"; cfg "v"] initialState (snd (fst run))
           (snd (fst run)) (Some 1) {| clients := [0; 1] |} (snd run)).
  reflexivity.
Defined.

(** ** Reuse and replacement of the stored handle *)

Lemma coherent_vars (s s' : State) :
  client s' = client s -> clientCloser s' = clientCloser s ->
  coherent s -> coherent s'.
Proof. unfold coherent. intros -> ->. auto. Qed.

Section Handle.

Variable net : Network.

(** The probe of a client that answers. *)
Lemma connect_alive (addrs : list string) (configs : list ClientConfig)
  (s : State) (cl : Client) :
  client s = Some cl ->
  conn_SendRequest net (tick s) cl = None ->
  connect net addrs configs s =
  (Returned (Some cl, None),
   {| client := client s; clientCloser := clientCloser s;
      counter := counter s; nextClient := nextClient s;
      tick := S (tick s) |},
   [EvCall Fconnect; EvLock; EvKeepalive cl None; EvUnlock]).
Proof.
  intros Hcl Hprobe.
  unfold connect, defer, bind, emit, getClient, getClientCloser, clientAlive.
  rewrite Hcl. unfold bind, interact. rewrite Hprobe.
  unfold ret. simpl. now rewrite Hcl.
Qed.

(** The probe of a client that does not answer: the closer is invoked. *)
Lemma clientAlive_stale (cl : Client) (closer : sshCleanup) (e : error)
  (s : State) :
  conn_SendRequest net (tick s) cl = Some e ->
  exists s' tc,
    clientAlive net (Some cl) (Some closer) s =
    (Returned false, s',
     [EvKeepalive cl (Some e); EvLog LogNotResponding] ++ tc ++
     match hd_error (closeErrors tc) with
     | Some e' => [EvLog (LogFailedClose e')]
     | None => []
     end) /\
    forallb isClose tc = true /\ closed tc = rev (clients closer) /\
    sameVars s s' /\ nextClient s' = nextClient s.
Proof.
  intros Hprobe.
  destruct (clientAlive_run net (Some cl) (Some closer) s)
    as (r & s' & t & Hrun & Hv & _ & _ & _ & Hr).
  assert (Hnext : nextClient s' = nextClient s /\ r <> Returned true
                  /\ r <> Panicked).
  { revert Hrun. unfold clientAlive.
    unfold bind at 1. unfold interact at 1. rewrite Hprobe.
    unfold bind at 1. unfold log at 1, emit at 1.
    match goal with
    | |- context [bind (Close net closer) _ ?s1] =>
        destruct (Close_run net closer s1)
          as (s2 & tc & Hclose & _ & _ & _ & Hn)
    end.
    unfold bind at 1. rewrite Hclose.
    destruct (hd_error (closeErrors tc)); unfold bind, log, emit, ret;
      intros H; inversion H; subst; repeat split; auto; discriminate. }
  destruct Hnext as (Hnext & Hnt & Hnp).
  destruct r as [[|]|]; try congruence.
  destruct Hr as (e0 & closer0 & tc & Hcl & Ht & Hall & Hclosed).
  inversion Hcl; subst closer0.
  assert (e0 = e).
  { revert Hrun. unfold clientAlive.
    unfold bind at 1. unfold interact at 1. rewrite Hprobe.
    unfold bind at 1. unfold log at 1, emit at 1.
    match goal with
    | |- context [bind (Close net closer) _ ?s1] =>
        destruct (Close_run net closer s1) as (s2 & tc2 & Hclose & _)
    end.
    unfold bind at 1. rewrite Hclose.
    destruct (hd_error (closeErrors tc2)); unfold bind, log, emit, ret;
      intros H; inversion H; subst; simpl in *; congruence. }
  subst e0. exists s', tc. rewrite Hrun, Ht. repeat split; auto; apply Hv.
Qed.

(** [connect] on a handle whose probe fails. *)
Lemma connect_stale (addrs : list string) (configs : list ClientConfig)
  (s : State) (cl : Client) (closer : sshCleanup) (e : error) :
  client s = Some cl -> clientCloser s = Some closer ->
  conn_SendRequest net (tick s) cl = Some e ->
  exists s0 tc nc ncl err s1 tb s',
    newClient net addrs configs s0 = (Returned (nc, ncl, err), s1, tb) /\
    connect net addrs configs s =
    (Returned (match err with Some _ => None | None => nc end, err), s',
     [EvCall Fconnect; EvLock; EvKeepalive cl (Some e); EvLog LogNotResponding]
     ++ tc ++
     match hd_error (closeErrors tc) with
     | Some e' => [EvLog (LogFailedClose e')]
     | None => []
     end ++ tb ++ [EvUnlock]) /\
    forallb isClose tc = true /\ closed tc = rev (clients closer) /\
    forallb buildEvent tb = true /\
    client s' = match err with Some _ => None | None => nc end /\
    clientCloser s' = ncl /\ counter s' = counter s.
Proof.
  intros Hcl Hcc Hprobe.
  destruct (clientAlive_stale cl closer e s Hprobe)
    as (s0 & tc & Halive & Hall & Hclosed & Hv0 & _).
  destruct (newClient_run net addrs configs s0)
    as (nc & ncl & err & s1 & tb & Hnew & Hv1 & Hb & Hr).
  exists s0, tc, nc, ncl, err, s1, tb.
  unfold connect.
  unfold bind at 1. unfold emit at 1.
  unfold bind at 1. unfold emit at 1.
  unfold defer.
  unfold bind at 1. unfold getClient at 1.
  unfold bind at 1. unfold getClientCloser at 1.
  rewrite Hcl, Hcc.
  unfold bind at 1. rewrite Halive.
  unfold bind at 1. rewrite Hnew.
  destruct Hv0 as (_ & _ & Hk0). destruct Hv1 as (_ & _ & Hk1).
  destruct err as [e'|].
  - destruct Hr as (-> & -> & _).
    unfold bind, setClient, setClientCloser, getClient, ret, emit.
    eexists. split; [reflexivity|]. split.
    + simpl. rewrite ?app_nil_r, <- ?app_assoc. reflexivity.
    + simpl. repeat split; auto. congruence.
  - unfold bind, setClient, setClientCloser, getClient, ret, emit.
    eexists. split; [reflexivity|]. split.
    + simpl. rewrite ?app_nil_r, <- ?app_assoc. reflexivity.
    + simpl. repeat split; auto. congruence.
Qed.

End Handle.

(** X7. Two calls of [connect] in a row, the first one successful and the
    handle still answering: the second call returns the same client after
    exactly one probe of it, between [Lock] and [Unlock]; it dials nothing,
    closes nothing, and leaves [client], [clientCloser] and [counter] as
    they are, whatever addresses and configs it is given. *)
Theorem connect_twice_reuses (net : Network) (addrs addrs' : list string)
  (configs configs' : list ClientConfig) (s s1 : State) (cl : Client)
  (t1 : list Event) :
  connect net addrs configs s = (Returned (Some cl, None), s1, t1) ->
  conn_SendRequest net (tick s1) cl = None ->
  exists s2,
    connect net addrs' configs' s1 =
      (Returned (Some cl, None), s2,
       [EvCall Fconnect; EvLock; EvKeepalive cl None; EvUnlock]) /\
    sameVars s1 s2 /\ nextClient s2 = nextClient s1.
Proof.
  intros Hfirst Hprobe.
  destruct (connect_run net addrs configs s)
    as (r & s' & t & Hrun & _ & _ & _ & Hr).
  rewrite Hfirst in Hrun. inversion Hrun; subst r s' t.
  destruct Hr as (c & Hc & Hcur). inversion Hc; subst c.
  eexists. split.
  - apply (connect_alive net addrs' configs' s1 cl Hcur Hprobe).
  - repeat split.
Qed.

Lemma connect_twice_reuses_witness :
  let run := connect quietNet ["a:22"] [cfg "u"] initialState in
  exists s2,
    connect quietNet ["b:22"; "c:22"] [] (snd (fst run)) =
      (Returned (Some 0, None), s2,
       [EvCall Fconnect; EvLock; EvKeepalive 0 None; EvUnlock]) /\
    sameVars (snd (fst run)) s2 /\ nextClient s2 = nextClient (snd (fst run)).
Proof.
  intros run.
  apply (connect_twice_reuses quietNet ["a:22"] ["b:22"; "c:22"] [cfg "u"] []
           initialState (snd (fst run)) 0 (snd run)).
  - reflexivity.
  - reflexivity.
Defined.

(** X8. [connect] on a stored handle whose probe fails: after the probe
    and the log line, every client of the stored closer is closed, last hop
    first, before the new build starts; an error of these closes is logged;
    then comes the build, all inside [Lock] and [Unlock].  Afterwards
    [client] and [clientCloser] are what the build returned, both nil when
    it failed, and the old handle is no longer stored. *)
Theorem connect_replaces_stale_handle (net : Network) (addrs : list string)
  (configs : list ClientConfig) (s : State) (cl : Client)
  (closer : sshCleanup) (e : error) :
  client s = Some cl -> clientCloser s = Some closer ->
  conn_SendRequest net (tick s) cl = Some e ->
  exists s0 tc nc ncl err s1 tb s',
    newClient net addrs configs s0 = (Returned (nc, ncl, err), s1, tb) /\
    connect net addrs configs s =
    (Returned (match err with Some _ => None | None => nc end, err), s',
     [EvCall Fconnect; EvLock; EvKeepalive cl (Some e); EvLog LogNotResponding]
     ++ tc ++
     match hd_error (closeErrors tc) with
     | Some e' => [EvLog (LogFailedClose e')]
     | None => []
     end ++ tb ++ [EvUnlock]) /\
    forallb isClose tc = true /\ closed tc = rev (clients closer) /\
    forallb buildEvent tb = true /\
    client s' = match err with Some _ => None | None => nc end /\
    clientCloser s' = ncl /\ counter s' = counter s.
Proof. exact (connect_stale net addrs configs s cl closer e). Qed.

Lemma connect_replaces_stale_handle_witness :
  let s := {| client := Some 1; clientCloser := Some {| clients := [0; 1] |};
              counter := 0; nextClient := 2; tick := 0 |} in
  exists s0 tc nc ncl err s1 tb s',
    newClient networkDown ["a:22"] [cfg "u"] s0
      = (Returned (nc, ncl, err), s1, tb) /\
    connect networkDown ["a:22"] [cfg "u"] s =
    (Returned (match err with Some _ => None | None => nc end, err), s',
     [EvCall Fconnect; EvLock; EvKeepalive 1 (Some "EOF");
      EvLog LogNotResponding]
     ++ tc ++
     match hd_error (closeErrors tc) with
     | Some e' => [EvLog (LogFailedClose e')]
     | None => []
     end ++ tb ++ [EvUnlock]) /\
    forallb isClose tc = true /\
    closed tc = rev (clients {| clients := [0; 1] |}) /\
    forallb buildEvent tb = true /\
    client s' = match err with Some _ => None | None => nc end /\
    clientCloser s' = ncl /\ counter s' = counter s.
Proof.
  intros s.
  apply (connect_replaces_stale_handle networkDown ["a:22"] [cfg "u"] s 1
           {| clients := [0; 1] |} "EOF").
  - reflexivity.
  - reflexivity.
  - reflexivity.
Defined.

(** ** The mutex and the invariant of the stored handle *)

Lemma build_no_locks (t : list Event) :
  forallb buildEvent t = true -> locks t = [].
Proof.
  intros H. apply (pick_none _ buildEvent); auto.
  intros [[]| | | | | | | | | | | | |] E; simpl in E; congruence.
Qed.

Lemma closes_no_locks (t : list Event) :
  forallb isClose t = true -> locks t = [].
Proof.
  intros H. apply build_no_locks. revert H.
  apply forallb_weaken, isClose_buildEvent.
Qed.

Section Mutex.

Variable net : Network.

Lemma clientAlive_no_locks (cl : option Client) (cleanup : option sshCleanup)
  (s s' : State) (r : Called bool) (t : list Event) :
  clientAlive net cl cleanup s = (r, s', t) -> locks t = [].
Proof.
  unfold clientAlive. destruct cl as [c|].
  2:{ unfold ret. intros H. inversion H. reflexivity. }
  unfold bind at 1. unfold interact at 1.
  destruct (conn_SendRequest net (tick s) c) as [e|].
  2:{ unfold ret. intros H. inversion H. reflexivity. }
  unfold bind at 1. unfold log at 1, emit at 1.
  destruct cleanup as [closer|].
  2:{ unfold bind, panic. intros H. inversion H. reflexivity. }
  match goal with
  | |- context [bind (Close net closer) _ ?s1] =>
      destruct (Close_run net closer s1) as (s2 & tc & Hclose & _ & Hall & _)
  end.
  unfold bind at 1. rewrite Hclose.
  pose proof (closes_no_locks tc Hall) as Hl.
  destruct (hd_error (closeErrors tc)); unfold bind, log, emit, ret;
    intros H; inversion H; subst; unfold locks in *; simpl;
    rewrite ?pick_app, Hl; reflexivity.
Qed.

(** [connect] between [Lock] and [Unlock], on every path. *)
Lemma connect_locked (addrs : list string) (configs : list ClientConfig)
  (s : State) :
  exists r s' t0,
    connect net addrs configs s =
      (r, s', [EvCall Fconnect; EvLock] ++ t0 ++ [EvUnlock]) /\
    locks t0 = [] /\ calls Fconnect t0 = [] /\
    match r with
    | Returned _ => True
    | Panicked => client s <> None /\ clientCloser s = None
    end.
Proof.
  unfold connect.
  unfold bind at 1. unfold emit at 1.
  unfold bind at 1. unfold emit at 1.
  unfold defer.
  unfold bind at 1. unfold getClient at 1.
  unfold bind at 1. unfold getClientCloser at 1.
  destruct (clientAlive_run net (client s) (clientCloser s) s)
    as (r & s0 & t0 & Halive & _ & _ & Hc0 & _ & Hr).
  pose proof (clientAlive_no_locks _ _ _ _ _ _ Halive) as Hl0.
  unfold bind at 1. rewrite Halive.
  destruct r as [[|]|].
  - unfold bind, getClient, ret, emit. do 3 eexists.
    split; [simpl; rewrite ?app_nil_r; reflexivity|].
    repeat split; auto.
  - destruct (newClient_run net addrs configs s0)
      as (nc & ncl & err & s1 & t1 & Hnew & _ & Hb1 & _).
    destruct (build_only t1 Hb1) as (_ & Hc1 & _).
    pose proof (build_no_locks t1 Hb1) as Hl1.
    unfold bind at 1. rewrite Hnew.
    destruct err; unfold bind, setClient, setClientCloser, getClient, ret, emit.
    + do 2 eexists. exists (t0 ++ t1).
      split; [simpl; rewrite ?app_nil_r, <- ?app_assoc; reflexivity|].
      autorewrite with reads. rewrite Hl0, Hl1, Hc0, Hc1. repeat split.
    + do 3 eexists.
      split; [simpl; rewrite ?app_nil_r; reflexivity|].
      autorewrite with reads. rewrite Hl0, Hl1, Hc0, Hc1. repeat split.
  - do 3 eexists.
    split; [simpl; rewrite ?app_nil_r; reflexivity|].
    repeat split; auto; apply Hr.
Qed.

End Mutex.

(** X9. Every call of [connect], in every state and on every network,
    takes the mutex once, first, and releases it once, last, also when the
    call panics (which it does only for a stored client without a closer):
    the probe, the closes of a stale handle and the whole build with all
    its dials happen while the mutex is held. *)
Theorem connect_holds_lock (net : Network) (addrs : list string)
  (configs : list ClientConfig) (s : State) :
  exists r s' t0,
    connect net addrs configs s =
      (r, s', [EvCall Fconnect; EvLock] ++ t0 ++ [EvUnlock]) /\
    locks t0 = [] /\ calls Fconnect t0 = [] /\
    match r with
    | Returned _ => True
    | Panicked => client s <> None /\ clientCloser s = None
    end.
Proof. exact (connect_locked net addrs configs s). Qed.

Example connect_panics_and_unlocks :
  connect networkDown ["a:22"] [cfg "u"]
    {| client := Some 0; clientCloser := None; counter := 0;
       nextClient := 1; tick := 0 |} =
  (Panicked,
   {| client := Some 0; clientCloser := None; counter := 0;
      nextClient := 1; tick := 1 |},
   [EvCall Fconnect; EvLock; EvKeepalive 0 (Some "EOF");
    EvLog LogNotResponding; EvUnlock]).
Proof. reflexivity. Qed.

Section Invariant.

Variable net : Network.

Lemma connect_coherent (addrs : list string) (configs : list ClientConfig)
  (s : State) :
  coherent s ->
  exists x err s' t,
    connect net addrs configs s = (Returned (x, err), s', t) /\
    coherent s' /\
    forallb managerEvent t = true /\
    calls Fconnect t = [tt] /\ calls Freconnect t = [] /\
    locks t = [true; false] /\
    match err with
    | None => exists c, x = Some c /\ client s' = Some c
    | Some _ => x = None
    end.
Proof.
  intros Hco.
  destruct (connect_run net addrs configs s)
    as (r & s' & t & Hrun & Hm & Hc & Hrc & Hr).
  destruct (connect_locked net addrs configs s)
    as (r' & s2 & t0 & Hrun' & Hl & _).
  rewrite Hrun in Hrun'. inversion Hrun'; subst r' s2.
  assert (Hlocks : locks t = [true; false]).
  { rewrite H2. unfold locks in *. simpl. rewrite pick_app, Hl. reflexivity. }
  clear H2 Hrun'.
  destruct r as [[x err]|].
  2:{ destruct Hr as (Hcl & Hcc). unfold coherent in Hco.
      rewrite Hcc in Hco. destruct (client s); [contradiction | congruence]. }
  exists x, err, s', t.
  split; [exact Hrun|]. split.
  2:{ repeat split; auto. destruct err as [e|].
      - apply Hr.
      - destruct Hr as (c & Hx & Hcur). exists c. auto. }
  (* the handle that is left is whole *)
  revert Hrun. unfold connect.
  unfold bind at 1. unfold emit at 1.
  unfold bind at 1. unfold emit at 1.
  unfold defer.
  unfold bind at 1. unfold getClient at 1.
  unfold bind at 1. unfold getClientCloser at 1.
  destruct (clientAlive_run net (client s) (clientCloser s) s)
    as (ra & s0 & ta & Halive & Hv0 & _).
  unfold bind at 1. rewrite Halive.
  destruct ra as [[|]|].
  - unfold bind, getClient, ret, emit. intros H. inversion H; subst.
    destruct Hv0 as (Hv1 & Hv2 & _). exact (coherent_vars _ _ Hv1 Hv2 Hco).
  - destruct (newClient_run net addrs configs s0)
      as (nc & ncl & err' & s1 & t1 & Hnew & _ & _ & Hr1).
    unfold bind at 1. rewrite Hnew.
    destruct err' as [e|].
    + destruct Hr1 as (-> & -> & _).
      unfold bind, setClient, setClientCloser, getClient, ret, emit.
      intros H. inversion H; subst. exact I.
    + destruct Hr1 as (-> & -> & Hlen & Hne & _).
      unfold bind, setClient, setClientCloser, getClient, ret, emit.
      intros H. inversion H; subst. unfold coherent. simpl.
      split; [|reflexivity].
      intros E. rewrite E in Hlen. destruct addrs; [congruence|discriminate].
  - discriminate.
Qed.

Lemma reconnect_coherent (addrs : list string) (configs : list ClientConfig)
  (s : State) :
  coherent s ->
  exists x err s' t,
    reconnect net addrs configs s = (Returned (x, err), s', t) /\
    coherent s' /\
    forallb managerEvent t = true /\
    calls Fconnect t = [] /\ calls Freconnect t = [tt] /\
    match err with
    | None =>
        exists c, x = Some c /\ client s' = Some c /\
                  locks t = [true; false] /\ closed t = [] /\ tick s' = tick s
                  + 2 * List.length addrs
    | Some _ =>
        x = None /\ sameVars s s' /\ locks t = [] /\
        closed t = rev (established t)
    end.
Proof.
  intros Hco.
  destruct (newClient_run net addrs configs s)
    as (nc & ncl & err & s1 & t1 & Hnew & Hv & Hb & Hr).
  destruct (build_only t1 Hb) as (_ & Hc & Hrc & Hm).
  pose proof (build_no_locks t1 Hb) as Hl.
  pose proof (reconnect_run net addrs configs s s1 nc ncl err t1 Hnew) as Hre.
  destruct err as [e|].
  - exists None, (Some e), s1, ([EvCall Freconnect] ++ t1).
    split; [exact Hre|].
    destruct Hv as (Hv1 & Hv2 & Hv3).
    split; [exact (coherent_vars _ _ Hv1 Hv2 Hco)|].
    autorewrite with reads. rewrite Hc, Hrc, Hl. simpl.
    split; [exact Hm|]. repeat split; auto.
    destruct Hr as (_ & _ & [(_ & -> & _) | (_ & k & _ & Hfail)]);
      [reflexivity|].
    destruct (failedAt_reads _ _ _ _ _ Hfail) as (_ & _ & Hcl & _).
    unfold closed at 1, established. simpl. exact Hcl.
  - destruct (newClient_chain net _ _ _ _ _ _ _ Hnew)
      as (Hne & _ & Hlen & Hnc & Hncl & _ & _ & _ & Hcl & _ & Htick & _).
    subst nc ncl.
    eexists _, None, _, _. split; [exact Hre|].
    split.
    { unfold coherent. simpl. split; [|reflexivity].
      intros E. rewrite E in Hlen. destruct addrs; [congruence|discriminate]. }
    autorewrite with reads. rewrite Hc, Hrc, Hl, Hcl, !forallb_app, Hm. simpl.
    repeat split. eexists. repeat split. exact Htick.
Qed.

End Invariant.

(** ** A forwarding session *)

Section Session.

Variable net : Network.

Lemma pump_no_locks (addrs : list string) (configs : list ClientConfig)
  (s : State) :
  exists s' t,
    pump net addrs configs s = (Returned tt, s', t) /\
    sameVars s s' /\
    started t = [GoScheduleReconnect addrs configs] /\
    copies t = [Output; Input] /\
    remoteDials t = [] /\ connCloses t = [] /\
    calls Fconnect t = [] /\ calls Freconnect t = [] /\ locks t = [].
Proof.
  unfold pump, copyStream, bind, go, emit, interact, log, ret. simpl.
  destruct (io_Copy net (tick s) Output); simpl;
    destruct (io_Copy net (S (tick s)) Input); simpl;
    do 2 eexists; (split; [reflexivity|]); repeat split.
Qed.

(** The five ways in which a session can go. *)
Lemma forward_session (conn : Conn) (remoteAddr : string)
  (addrs : list string) (configs : list ClientConfig) (s : State) :
  coherent s ->
  exists s' t0,
    forward net conn remoteAddr addrs configs s
      = (Returned tt, s', t0 ++ [EvConnClose conn]) /\
    coherent s' /\ connCloses t0 = [] /\ calls Fconnect t0 = [tt] /\
    ((remoteDials t0 = [] /\ calls Freconnect t0 = [] /\
      copies t0 = [] /\ started t0 = [] /\ locks t0 = [true; false])
     \/
     (exists c,
        remoteDials t0 = [(c, remoteAddr, None)] /\ calls Freconnect t0 = [] /\
        copies t0 = [Output; Input] /\
        started t0 = [GoScheduleReconnect addrs configs] /\
        locks t0 = [true; false])
     \/
     (exists c e,
        remoteDials t0 = [(c, remoteAddr, Some e)] /\
        calls Freconnect t0 = [tt] /\
        copies t0 = [] /\ started t0 = [] /\ locks t0 = [true; false])
     \/
     (exists c e c2,
        remoteDials t0 = [(c, remoteAddr, Some e); (c2, remoteAddr, None)] /\
        calls Freconnect t0 = [tt] /\
        copies t0 = [Output; Input] /\
        started t0 = [GoScheduleReconnect addrs configs] /\
        locks t0 = [true; false; true; false])
     \/
     (exists c e c2 e2,
        remoteDials t0
          = [(c, remoteAddr, Some e); (c2, remoteAddr, Some e2)] /\
        calls Freconnect t0 = [tt] /\
        copies t0 = [] /\ started t0 = [] /\
        locks t0 = [true; false; true; false])).
Proof.
  intros Hco.
  destruct (connect_coherent net addrs configs s Hco)
    as (x & err & s1 & t1 & Hconnect & Hco1 & Hm1 & Hc1 & Hrc1 & Hl1 & Hr).
  destruct (manager_only t1 Hm1) as (Hrd1 & Hcp1 & Hcc1 & Hst1).
  unfold forward, defer.
  unfold bind at 1. rewrite Hconnect.
  destruct err as [e0|].
  { (* connect fails *)
    unfold ret, emit. exists s1, t1.
    split; [simpl; now rewrite app_nil_r|].
    split; [exact Hco1|]. split; [exact Hcc1|]. split; [exact Hc1|].
    left. repeat split; auto. }
  destruct Hr as (c & -> & Hcur).
  unfold bind at 1. unfold dialRemote at 1. unfold interact at 1.
  set (s1' := {| client := client s1; clientCloser := clientCloser s1;
                 counter := counter s1; nextClient := nextClient s1;
                 tick := S (tick s1) |}).
  assert (Hco1' : coherent s1')
    by exact (coherent_vars s1 s1' eq_refl eq_refl Hco1).
  destruct (client_Dial net (tick s1) c remoteAddr) as [e1|].
  2:{ (* the first dial succeeds *)
    destruct (pump_no_locks addrs configs s1')
      as (s2 & t2 & Hpump & Hv2 & Hst2 & Hcp2 & Hrd2 & Hcc2 & Hc2 & Hrc2 & Hl2).
    rewrite Hpump. unfold emit.
    exists s2, (t1 ++ [EvForwardDial c remoteAddr None] ++ t2).
    split; [simpl; rewrite ?app_nil_r, <- ?app_assoc; reflexivity|].
    destruct Hv2 as (Hv2a & Hv2b & _).
    split; [exact (coherent_vars _ _ Hv2a Hv2b Hco1')|].
    autorewrite with reads.
    rewrite Hcc1, Hcc2, Hc1, Hc2, Hrd1, Hrd2, Hrc1, Hrc2, Hcp1, Hcp2, Hst1,
      Hst2, Hl1, Hl2.
    split; [reflexivity|]. split; [reflexivity|].
    right. left. exists c. repeat split. }
  (* the first dial fails *)
  unfold bind at 1. unfold log at 1, emit at 1.
  destruct (reconnect_coherent net addrs configs s1' Hco1')
    as (x2 & err2 & s2 & t2 & Hre & Hco2 & Hm2 & Hc2 & Hrc2 & Hr2).
  destruct (manager_only t2 Hm2) as (Hrd2 & Hcp2 & Hcc2 & Hst2).
  unfold bind at 1. rewrite Hre.
  destruct err2 as [e2|].
  { (* the rebuild fails *)
    destruct Hr2 as (_ & _ & Hl2 & _).
    unfold ret, emit.
    exists s2, (t1 ++ [EvForwardDial c remoteAddr (Some e1)]
                ++ [EvLog (LogFailedDialReconnect remoteAddr e1)] ++ t2).
    split; [simpl; rewrite ?app_nil_r, <- ?app_assoc; reflexivity|].
    split; [exact Hco2|].
    autorewrite with reads.
    rewrite Hcc1, Hcc2, Hc1, Hc2, Hrd1, Hrd2, Hrc1, Hrc2, Hcp1, Hcp2, Hst1,
      Hst2, Hl1, Hl2.
    split; [reflexivity|]. split; [reflexivity|].
    right. right. left. exists c, e1. repeat split. }
  destruct Hr2 as (c2 & -> & Hcur2 & Hl2 & _).
  unfold bind at 1. unfold dialRemote at 1. unfold interact at 1.
  set (s2' := {| client := client s2; clientCloser := clientCloser s2;
                 counter := counter s2; nextClient := nextClient s2;
                 tick := S (tick s2) |}).
  assert (Hco2' : coherent s2')
    by exact (coherent_vars s2 s2' eq_refl eq_refl Hco2).
  destruct (client_Dial net (tick s2) c2 remoteAddr) as [e2|].
  - (* the second dial fails *)
    unfold log, emit.
    exists s2', (t1 ++ [EvForwardDial c remoteAddr (Some e1)]
                 ++ [EvLog (LogFailedDialReconnect remoteAddr e1)] ++ t2
                 ++ [EvForwardDial c2 remoteAddr (Some e2)]
                 ++ [EvLog (LogFailedDialFinal remoteAddr e2)]).
    split; [simpl; rewrite ?app_nil_r, <- ?app_assoc; reflexivity|].
    split; [exact Hco2'|].
    autorewrite with reads.
    rewrite Hcc1, Hcc2, Hc1, Hc2, Hrd1, Hrd2, Hrc1, Hrc2, Hcp1, Hcp2, Hst1,
      Hst2, Hl1, Hl2.
    split; [reflexivity|]. split; [reflexivity|].
    right. right. right. right. exists c, e1, c2, e2. repeat split.
  - (* the second dial succeeds *)
    destruct (pump_no_locks addrs configs s2')
      as (s3 & t3 & Hpump & Hv3 & Hst3 & Hcp3 & Hrd3 & Hcc3 & Hc3 & Hrc3 & Hl3).
    rewrite Hpump. unfold emit.
    exists s3, (t1 ++ [EvForwardDial c remoteAddr (Some e1)]
                ++ [EvLog (LogFailedDialReconnect remoteAddr e1)] ++ t2
                ++ [EvForwardDial c2 remoteAddr None] ++ t3).
    split; [simpl; rewrite ?app_nil_r, <- ?app_assoc; reflexivity|].
    destruct Hv3 as (Hv3a & Hv3b & _).
    split; [exact (coherent_vars _ _ Hv3a Hv3b Hco2')|].
    autorewrite with reads.
    rewrite Hcc1, Hcc2, Hcc3, Hc1, Hc2, Hc3, Hrd1, Hrd2, Hrd3, Hrc1, Hrc2,
      Hrc3, Hcp1, Hcp2, Hcp3, Hst1, Hst2, Hst3, Hl1, Hl2, Hl3.
    split; [reflexivity|]. split; [reflexivity|].
    right. right. right. left. exists c, e1, c2. repeat split.
Qed.

End Session.



Example forward_session_trace :
  forward quietNet 5 "internal.lan:80" ["a:22"] [cfg "u"] initialState =
  (Returned tt,
   {| client := Some 0; clientCloser := Some {| clients := [0] |};
      counter := 0; nextClient := 1; tick := 5 |},
   [EvCall Fconnect; EvLock; EvLog (LogEstablishing "a:22");
    EvNetDial "a:22" 0 None; EvHandshake "a:22" None; EvNewClient 0;
    EvLog (LogConnectedFinal "a:22"); EvUnlock;
    EvForwardDial 0 "internal.lan:80" None;
    EvGo (GoScheduleReconnect ["a:22"] [cfg "u"]);
    EvCopy Output None; EvCopy Input None; EvConnClose 5]).
Proof. vm_compute. reflexivity. Qed.

(** ** Goroutines one after another *)

Lemma lockPairs_app (j k : nat) :
  lockPairs j ++ lockPairs k = lockPairs (j + k).
Proof.
  unfold lockPairs. now rewrite repeat_app, List.concat_app.
Qed.

Section Goroutines.

Variable net : Network.

Lemma runGoroutine_coherent (g : Goroutine) (s : State) :
  coherent s ->
  exists s' t k,
    runGoroutine net g s = (Returned tt, s', t) /\
    coherent s' /\ locks t = lockPairs k /\
    connCloses t = sessionConns [g].
Proof.
  intros Hco. destruct g as [addrs configs|conn remoteAddr addrs configs|task].
  - destruct (connect_coherent net addrs configs s Hco)
      as (x & err & s' & t & Hrun & Hco' & Hm & _ & _ & Hl & _).
    destruct (manager_only t Hm) as (_ & _ & Hcc & _).
    exists s', t, 1. simpl. unfold bind. rewrite Hrun. unfold ret.
    rewrite app_nil_r. repeat split; auto.
  - destruct (forward_session net conn remoteAddr addrs configs s Hco)
      as (s' & t0 & Hrun & Hco' & Hcc & _ & Hcases).
    assert (Hl : exists k, locks t0 = lockPairs k).
    { destruct Hcases as [H|[H|[H|[H|H]]]].
      - exists 1. apply H.
      - destruct H as (? & H). exists 1. apply H.
      - destruct H as (? & ? & H). exists 1. apply H.
      - destruct H as (? & ? & ? & H). exists 2. apply H.
      - destruct H as (? & ? & ? & ? & H). exists 2. apply H. }
    destruct Hl as (k & Hl).
    exists s', (t0 ++ [EvConnClose conn]), k. simpl.
    autorewrite with reads. rewrite Hl, Hcc, app_nil_r. repeat split; auto.
  - destruct task as [addrs configs|addrs configs].
    + destruct (reconnect_coherent net addrs configs s Hco)
        as (x & err & s' & t & Hrun & Hco' & Hm & _ & _ & Hr).
      destruct (manager_only t Hm) as (_ & _ & Hcc & _).
      assert (Hl : exists k, locks t = lockPairs k).
      { destruct err.
        - exists 0. apply Hr.
        - destruct Hr as (? & _ & _ & Hl & _). exists 1. exact Hl. }
      destruct Hl as (k & Hl).
      exists s', t, k. simpl. unfold bind. rewrite Hrun. unfold ret.
      rewrite app_nil_r. repeat split; auto.
    + simpl. rewrite scheduleReconnect_run. cbv zeta.
      do 2 eexists. exists 0. split; [reflexivity|].
      split; [exact (coherent_vars _ _ eq_refl eq_refl Hco)|].
      destruct (((counter s + 1) mod 2 ^ 64) mod counterCycle =? 0)%Z;
        split; reflexivity.
Qed.

Lemma runAll_coherent (gs : list Goroutine) :
  forall s,
    coherent s ->
    exists s' t k,
      runAll net gs s = (Returned tt, s', t) /\
      coherent s' /\ locks t = lockPairs k /\
      connCloses t = sessionConns gs.
Proof.
  induction gs as [|g gs IH]; intros s Hco.
  - exists s, [], 0. repeat split; auto.
  - destruct (runGoroutine_coherent g s Hco)
      as (s1 & t1 & k1 & Hrun1 & Hco1 & Hl1 & Hcc1).
    destruct (IH s1 Hco1) as (s2 & t2 & k2 & Hrun2 & Hco2 & Hl2 & Hcc2).
    exists s2, (t1 ++ t2), (k1 + k2).
    split.
    { simpl. unfold bind. now rewrite Hrun1, Hrun2. }
    split; [exact Hco2|].
    autorewrite with reads. rewrite Hl1, Hl2, Hcc1, Hcc2, lockPairs_app.
    split; [reflexivity|].
    simpl in *. now rewrite app_nil_r.
Qed.

End Goroutines.

(** X11. Goroutines of the program run one after another, each to its
    end, from a state whose stored handle is whole (as at process start):
    none of them panics, the stored handle stays whole (no client and no
    closer, or a client that is the last hop of the stored closer), the
    mutex is taken and released in turn and is free at the end, and every
    session closes its local connection exactly once, in the order of the
    sessions. *)
Theorem goroutines_keep_handle_whole (net : Network) (gs : list Goroutine)
  (s : State) :
  coherent s ->
  exists s' t k,
    runAll net gs s = (Returned tt, s', t) /\
    coherent s' /\ locks t = lockPairs k /\
    connCloses t = sessionConns gs.
Proof. exact (runAll_coherent net gs s). Qed.

Lemma goroutines_keep_handle_whole_witness :
  let gs := [GConnect ["a:22"] [cfg "u"];
             GForward 5 "internal.lan:80" ["a:22"] [cfg "u"];
             GTask (GoReconnect ["a:22"] [cfg "u"]);
             GForward 6 "internal.lan:80" ["a:22"] [cfg "u"]] in
  exists s' t k,
    runAll remoteUnreachable gs initialState = (Returned tt, s', t) /\
    coherent s' /\ locks t = lockPairs k /\
    connCloses t = [5; 6].
Proof.
  intros gs.
  apply (goroutines_keep_handle_whole remoteUnreachable gs initialState).
  exact I.
Defined.

(** X12. [reconnect] never probes the stored handle and never closes it:
    when the build succeeds nothing at all is closed, so the handle that is
    replaced stays open, and when the build fails exactly the clients that
    this call established are closed, last one first. *)
Theorem reconnect_leaves_old_handle_open (net : Network)
  (addrs : list string) (configs : list ClientConfig) (s : State) :
  exists x err s' t,
    reconnect net addrs configs s = (Returned (x, err), s', t) /\
    probed t = [] /\
    match err with
    | None => x <> None /\ closed t = []
    | Some _ => x = None /\ closed t = rev (established t)
    end.
Proof.
  destruct (newClient_run net addrs configs s)
    as (nc & ncl & err & s1 & t1 & Hnew & _ & Hb & Hr).
  destruct (build_only t1 Hb) as (Hp & _).
  pose proof (reconnect_run net addrs configs s s1 nc ncl err t1 Hnew) as Hre.
  destruct err as [e|].
  - do 4 eexists. split; [exact Hre|].
    autorewrite with reads. rewrite Hp. split; [reflexivity|].
    split; [reflexivity|].
    destruct Hr as (_ & _ & [(_ & -> & _) | (_ & k & _ & Hfail)]);
      [reflexivity|].
    destruct (failedAt_reads _ _ _ _ _ Hfail) as (_ & _ & Hcl & _).
    unfold closed at 1, established. simpl. exact Hcl.
  - destruct Hr as (-> & _ & _ & _ & _ & Hcl & _).
    do 4 eexists. split; [exact Hre|].
    autorewrite with reads. rewrite Hp, Hcl.
    repeat split. discriminate.
Qed.

Example reconnect_leak :
  let s := {| client := Some 1; clientCloser := Some {| clients := [0; 1] |};
              counter := 0; nextClient := 2; tick := 0 |} in
  closed (snd (reconnect quietNet ["a:22"; "b:22"] [cfg "u"; cfg "v"] s)) = []
  /\ clientCloser (snd (fst (reconnect quietNet ["a:22"; "b:22"]
                               [cfg "u"; cfg "v"] s)))
     = Some {| clients := [2; 3] |}.
Proof. vm_compute. split; reflexivity. Qed.

(** ** The counter in any window *)

Lemma div_1000_step (m : Z) :
  (0 <= m)%Z ->
  Z.to_nat ((m + 1) / 1000)
  = Z.to_nat (m / 1000) + (if ((m + 1) mod 1000 =? 0)%Z then 1 else 0).
Proof.
  intros Hm.
  pose proof (Z.div_mod m 1000 ltac:(lia)) as H1.
  pose proof (Z.mod_pos_bound m 1000 ltac:(lia)) as B1.
  pose proof (Z.div_mod (m + 1) 1000 ltac:(lia)) as H2.
  pose proof (Z.mod_pos_bound (m + 1) 1000 ltac:(lia)) as B2.
  assert (0 <= m / 1000)%Z by (apply Z.div_pos; lia).
  destruct ((m + 1) mod 1000 =? 0)%Z eqn:E.
  - apply Z.eqb_eq in E. rewrite E in H2.
    replace ((m + 1) / 1000)%Z with (m / 1000 + 1)%Z by lia.
    rewrite Z2Nat.inj_add by lia. reflexivity.
  - apply Z.eqb_neq in E.
    replace ((m + 1) / 1000)%Z with (m / 1000)%Z by lia. lia.
Qed.

Lemma repeatM_scheduleReconnect_from (addrs : list string)
  (configs : list ClientConfig) (s : State) (n : nat) :
  (0 <= counter s)%Z ->
  (counter s + Z.of_nat n < 2 ^ 64)%Z ->
  repeatM n (scheduleReconnect addrs configs) s =
  (Returned tt,
   {| client := client s; clientCloser := clientCloser s;
      counter := counter s + Z.of_nat n;
      nextClient := nextClient s; tick := tick s |},
   List.concat
     (repeat [EvLog LogSchedulingReconnect; EvGo (GoReconnect addrs configs)]
        (Z.to_nat ((counter s + Z.of_nat n) / 1000)
         - Z.to_nat (counter s / 1000)))).
Proof.
  intros Hzero. induction n as [|n IH]; intros Hbound.
  - simpl. unfold ret. rewrite Z.add_0_r, Nat.sub_diag.
    destruct s; reflexivity.
  - change (repeatM (S n) (scheduleReconnect addrs configs))
      with (repeatM n (scheduleReconnect addrs configs) ;;
            scheduleReconnect addrs configs).
    unfold bind. rewrite IH by lia.
    rewrite scheduleReconnect_run. cbv zeta.
    cbn [counter client clientCloser nextClient tick].
    replace ((counter s + Z.of_nat n + 1) mod 2 ^ 64)%Z
      with (counter s + Z.of_nat (S n))%Z
      by (rewrite Z.mod_small; lia).
    replace (counter s + Z.of_nat (S n))%Z
      with (counter s + Z.of_nat n + 1)%Z by lia.
    rewrite (div_1000_step (counter s + Z.of_nat n)) by lia.
    assert (Hmono : Z.to_nat (counter s / 1000)
                    <= Z.to_nat ((counter s + Z.of_nat n) / 1000)).
    { apply Z2Nat.inj_le; try (apply Z.div_pos; lia).
      apply Z.div_le_mono; lia. }
    unfold counterCycle.
    destruct ((counter s + Z.of_nat n + 1) mod 1000 =? 0)%Z.
    + f_equal.
      replace (Z.to_nat ((counter s + Z.of_nat n) / 1000) + 1
               - Z.to_nat (counter s / 1000))
        with ((Z.to_nat ((counter s + Z.of_nat n) / 1000)
               - Z.to_nat (counter s / 1000)) + 1) by lia.
      rewrite repeat_app, List.concat_app. reflexivity.
    + rewrite app_nil_r, Nat.add_0_r. reflexivity.
Qed.

(** X13. From any value of the counter, [n] sequential calls of
    [scheduleReconnect] that do not take the counter to 2^64 all return,
    add [n] to the counter and touch nothing else (no network interaction,
    [client] and [clientCloser] as before); they start one background
    rebuild for every multiple of 1000 that the counter reaches, no more
    and no fewer, each after its log line. *)
Theorem scheduleReconnect_window (addrs : list string)
  (configs : list ClientConfig) (s : State) (n : nat) :
  (0 <= counter s)%Z ->
  (counter s + Z.of_nat n < 2 ^ 64)%Z ->
  repeatM n (scheduleReconnect addrs configs) s =
  (Returned tt,
   {| client := client s; clientCloser := clientCloser s;
      counter := counter s + Z.of_nat n;
      nextClient := nextClient s; tick := tick s |},
   List.concat
     (repeat [EvLog LogSchedulingReconnect; EvGo (GoReconnect addrs configs)]
        (Z.to_nat ((counter s + Z.of_nat n) / 1000)
         - Z.to_nat (counter s / 1000)))).
Proof. exact (repeatM_scheduleReconnect_from addrs configs s n). Qed.

Lemma scheduleReconnect_window_witness :
  let s := {| client := Some 3; clientCloser := Some {| clients := [3] |};
              counter := 2990; nextClient := 4; tick := 17 |} in
  repeatM 20 (scheduleReconnect ["a:22"] [cfg "u"]) s =
  (Returned tt,
   {| client := Some 3; clientCloser := Some {| clients := [3] |};
      counter := 2990 + Z.of_nat 20; nextClient := 4; tick := 17 |},
   List.concat
     (repeat [EvLog LogSchedulingReconnect;
              EvGo (GoReconnect ["a:22"] [cfg "u"])]
        (Z.to_nat ((2990 + Z.of_nat 20) / 1000) - Z.to_nat (2990 / 1000)))).
Proof.
  intros s.
  apply (scheduleReconnect_window ["a:22"] [cfg "u"] s 20).
  - discriminate.
  - reflexivity.
Defined.

(** ** The hops that [main] passes on *)

Section MainHops.

Variable net : Network.

Lemma connectHop_timeouts (proxy : option Client) (addr : string)
  (config : ClientConfig) (s s' : State) (r : Called (Client + error))
  (t : list Event) :
  connectHop net proxy addr config s = (r, s', t) ->
  dialTimeouts t = match proxy with
                   | None => [Timeout config]
                   | Some _ => []
                   end.
Proof.
  unfold connectHop, bind, interact, ssh_NewClient, ret.
  destruct proxy as [p|]; simpl.
  - destruct (client_Dial net (tick s) p addr); simpl.
    + intros H. inversion H. reflexivity.
    + destruct (ssh_NewClientConn net (S (tick s)) addr config); simpl;
        intros H; inversion H; reflexivity.
  - destruct (net_DialTimeout net (tick s) addr (Timeout config)); simpl.
    + intros H. inversion H. reflexivity.
    + destruct (ssh_NewClientConn net (S (tick s)) addr config); simpl;
        intros H; inversion H; reflexivity.
Qed.

Lemma nth_error_skipn_head {A} (xs : list A) (i : nat) :
  firstn 1 (skipn i xs) = match nth_error xs i with
                          | Some x => [x]
                          | None => []
                          end.
Proof.
  revert i. induction xs as [|x xs IH]; intros [|i]; simpl; auto.
  apply IH.
Qed.

(** Only the first hop is dialled directly, with the timeout of its
    config, however the loop ends. *)
Lemma hopLoop_timeouts (configs : list ClientConfig) (rest : list string) :
  forall i client0 c s r s' t,
    hopLoop net configs i rest client0 c s = (r, s', t) ->
    dialTimeouts t = match client0, rest with
                     | None, _ :: _ => map Timeout (firstn 1 (skipn i configs))
                     | _, _ => []
                     end.
Proof.
  induction rest as [|addr rest' IH]; intros i client0 c s r s' t H.
  - simpl in H. unfold ret in H. inversion H. now destruct client0.
  - simpl in H. unfold index in H. rewrite nth_error_skipn_head.
    destruct (nth_error configs i) as [config|] eqn:Econf.
    2:{ unfold bind, panic in H. inversion H. now destruct client0. }
    unfold bind at 1 in H. unfold ret at 1 in H.
    unfold bind at 1 in H. unfold log at 1, emit at 1 in H.
    unfold bind at 1 in H.
    destruct (connectHop net client0 addr config s) as [[rh s1] t1] eqn:Hhop.
    pose proof (connectHop_timeouts _ _ _ _ _ _ _ Hhop) as Hz1.
    destruct rh as [[cl|e]|].
    + destruct (hopLoop net configs (S i) rest' (Some cl)
                  {| clients := clients c ++ [cl] |} s1)
        as [[r2 s2] t2] eqn:Hloop.
      pose proof (IH _ _ _ _ _ _ _ Hloop) as Hz2. simpl in Hz2.
      inversion H; subst.
      unfold dialTimeouts in *. simpl. rewrite pick_app, Hz1, Hz2.
      destruct client0; reflexivity.
    + unfold bind at 1 in H. unfold log at 1, emit at 1 in H.
      unfold bind at 1 in H.
      destruct (Close_run net c s1) as (s2 & tc & Hclose & _ & Hall & _).
      rewrite Hclose in H. unfold ret in H. inversion H; subst.
      assert (Hzc : dialTimeouts tc = []).
      { apply (pick_none _ isClose); auto.
        intros [] E; simpl in E; congruence. }
      unfold dialTimeouts in *. simpl.
      rewrite pick_app, Hz1. simpl. rewrite pick_app, Hzc.
      destruct client0; reflexivity.
    + inversion H; subst.
      unfold dialTimeouts in *. simpl. rewrite Hz1.
      destruct client0; reflexivity.
Qed.

End MainHops.

Lemma newClient_timeouts (net : Network) (addrs : list string)
  (configs : list ClientConfig) (s s' : State)
  (r : Called (option Client * option sshCleanup * option error))
  (t : list Event) :
  addrs <> [] ->
  List.length addrs = List.length configs ->
  newClient net addrs configs s = (r, s', t) ->
  dialTimeouts t = map Timeout (firstn 1 configs).
Proof.
  intros Hne Hlen. unfold newClient.
  rewrite (proj2 (Nat.eqb_eq _ _) Hlen). simpl.
  destruct (List.length addrs =? 0)%nat eqn:Ezero.
  { apply Nat.eqb_eq, length_zero_iff_nil in Ezero. congruence. }
  unfold bind at 1.
  destruct (hopLoop net configs 0 addrs None {| clients := [] |} s)
    as [[rh s1] t1] eqn:Hloop.
  pose proof (hopLoop_timeouts net _ _ _ _ _ _ _ _ _ Hloop) as Hz.
  destruct addrs as [|a addrs']; [congruence|]. simpl skipn in Hz.
  destruct rh as [[ret1|[client' c']]|].
  - unfold ret. intros H. inversion H; subst.
    rewrite app_nil_r. exact Hz.
  - unfold bind, log, emit, ret. intros H. inversion H; subst.
    rewrite !dialTimeouts_app, Hz. simpl. now rewrite app_nil_r.
  - intros H. inversion H; subst. exact Hz.
Qed.

(** X14. The addresses and configs that [main] makes from a host list it
    accepts always fit [newClient]: there is at least one address, one
    config per address with the user of the same entry, and every address
    has a port separator.  No config sets a timeout, so the dial of the
    first hop, the only direct one, is made with timeout 0.  [newClient]
    then never returns one of its errors of configuration: when it fails,
    its error is the error of the dial or handshake [fe] of a hop, the
    first one that failed and the last hop that was dialled, and the log
    line right after [fe] has the address of that hop and the error; only
    closes follow. *)
Theorem main_hops_fit_newClient (net : Network) (sshHost : string)
  (addrs : list string) (configs : list ClientConfig) (s : State) :
  mainHops sshHost = inl (addrs, configs) ->
  addrs <> [] /\ List.length configs = List.length addrs /\
  splitHosts sshHost = inl (map User configs, addrs) /\
  Forall (fun config => Timeout config = 0%Z) configs /\
  Forall (fun addr => strings.ContainsRune addr ":"%char = true) addrs /\
  exists nc ncl err s' t,
    newClient net addrs configs s = (Returned (nc, ncl, err), s', t) /\
    dialTimeouts t = [0%Z] /\
    match err with
    | None => nc <> None /\ ncl <> None
    | Some e =>
        hopErrors t = [e] /\
        exists k tb fe tc,
          k < List.length addrs /\
          t = tb ++ [fe; EvLog (LogFailedConnect (nth k addrs EmptyString) e)]
                 ++ tc /\
          hopFailure (nth k addrs EmptyString) e fe /\
          dialled (tb ++ [fe]) = firstn (S k) addrs /\
          hopErrors tb = [] /\
          forallb isClose tc = true /\
          In (nth k addrs EmptyString) addrs
    end.
Proof.
  unfold mainHops. intros H.
  destruct (splitHosts sshHost) as [[users addrs0]|e] eqn:Hsplit;
    [|discriminate].
  inversion H; subst addrs0 configs. clear H.
  destruct (splitHosts_accepted sshHost users addrs Hsplit)
    as (Hun & Han & _ & Hlen & _ & _ & Haddrs).
  assert (Hlenc : List.length (mainConfigs users) = List.length addrs).
  { unfold mainConfigs. rewrite length_map. now symmetry. }
  assert (Husers : map User (mainConfigs users) = users).
  { unfold mainConfigs. rewrite map_map. simpl. apply map_id. }
  split; [exact Han|]. split; [exact Hlenc|].
  split; [now rewrite Husers|].
  split.
  { unfold mainConfigs. apply Forall_map. apply Forall_forall. reflexivity. }
  split.
  { revert Haddrs. apply Forall_impl. intros a [Ha _]. exact Ha. }
  destruct (newClient_run net addrs (mainConfigs users) s)
    as (nc & ncl & err & s' & t & Hrun & _ & _ & Hr).
  exists nc, ncl, err, s', t. split; [exact Hrun|].
  split.
  { rewrite (newClient_timeouts net addrs (mainConfigs users) s s' _ t Han
               (eq_sym Hlenc) Hrun).
    destruct users; [congruence | reflexivity]. }
  destruct err as [e|].
  - destruct Hr as (_ & _ & [([Hbad|Hbad] & _) | (_ & k & Hk & Hfail)]);
      [congruence | congruence |].
    destruct (failedAt_reads _ _ _ _ _ Hfail) as (_ & _ & _ & Herr & _).
    split; [exact Herr|].
    destruct Hfail
      as (tb & fe & tc & Ht & Hfe & Hdial & _ & _ & Herrb & Htc & _).
    exists k, tb, fe, tc. repeat split; auto. now apply nth_In.
  - destruct Hr as (-> & -> & _). split; discriminate.
Qed.

Lemma main_hops_fit_newClient_witness :
  let addrs := ["gate.example.org:22"; "10.0.0.2:2222"] in
  let configs := [cfg "a"; cfg "b"] in
  mainHops "a@gate.example.org,b@10.0.0.2:2222" = inl (addrs, configs) /\
  exists nc ncl err s' t,
    newClient (handshakeFails "10.0.0.2:2222") addrs configs initialState
      = (Returned (nc, ncl, err), s', t) /\
    dialTimeouts t = [0%Z] /\
    match err with
    | None => nc <> None /\ ncl <> None
    | Some e =>
        hopErrors t = [e] /\
        exists k tb fe tc,
          k < List.length addrs /\
          t = tb ++ [fe; EvLog (LogFailedConnect (nth k addrs EmptyString) e)]
                 ++ tc /\
          hopFailure (nth k addrs EmptyString) e fe /\
          dialled (tb ++ [fe]) = firstn (S k) addrs /\
          hopErrors tb = [] /\
          forallb isClose tc = true /\
          In (nth k addrs EmptyString) addrs
    end.
Proof.
  intros addrs configs. split; [reflexivity|].
  destruct (main_hops_fit_newClient (handshakeFails "10.0.0.2:2222")
              "a@gate.example.org,b@10.0.0.2:2222" addrs configs initialState
              eq_refl)
    as (_ & _ & _ & _ & _ & H).
  exact H.
Defined.

(** ** Results *)

(** X15. [newClient], [reconnect] and [connect] return either a client
    and no error or an error and no client, never both and never neither:
    [newClient] and [reconnect] always return, with a closer exactly when
    there is a client; [connect] returns in this way unless it panics, and
    the client that it returns is the one it leaves in [client]. *)
Theorem client_or_error (net : Network) (addrs : list string)
  (configs : list ClientConfig) (s : State) :
  (exists nc ncl err s' t,
     newClient net addrs configs s = (Returned (nc, ncl, err), s', t) /\
     match err with
     | None => nc <> None /\ ncl <> None
     | Some _ => nc = None /\ ncl = None
     end) /\
  (exists x err s' t,
     reconnect net addrs configs s = (Returned (x, err), s', t) /\
     match err with
     | None => x <> None /\ client s' = x
     | Some _ => x = None
     end) /\
  (exists r s' t,
     connect net addrs configs s = (r, s', t) /\
     match r with
     | Returned (x, None) => x <> None /\ client s' = x
     | Returned (x, Some _) => x = None /\ client s' = None
     | Panicked => client s <> None /\ clientCloser s = None
     end).
Proof.
  destruct (newClient_run net addrs configs s)
    as (nc & ncl & err & s1 & t1 & Hnew & _ & _ & Hr).
  pose proof (reconnect_run net addrs configs s s1 nc ncl err t1 Hnew) as Hre.
  split; [|split].
  - exists nc, ncl, err, s1, t1. split; [exact Hnew|].
    destruct err.
    + destruct Hr as (-> & -> & _). split; reflexivity.
    + destruct Hr as (-> & -> & _). split; discriminate.
  - destruct err.
    + do 4 eexists. split; [exact Hre|]. reflexivity.
    + destruct Hr as (-> & _).
      do 4 eexists. split; [exact Hre|]. split; [discriminate | reflexivity].
  - destruct (connect_run net addrs configs s)
      as (r & s' & t & Hrun & _ & _ & _ & Hc).
    exists r, s', t. split; [exact Hrun|].
    destruct r as [[x [e|]]|].
    + destruct Hc as (Hx & Hcl & _). split; assumption.
    + destruct Hc as (c & -> & Hcl). split; [discriminate | exact Hcl].
    + exact Hc.
Qed.
